(** * csfw: scope hashes, the scoped configuration resolver and the
    scoped-config cache of the CORS service

  A shallow embedding of

  - [store/scope/hash.go]  (package [scope]: [Hash], [NewHash], [Unpack], ...),
  - the [Scoped] resolver of package [config]
    ([Scoped.Byte], [Scoped.String], ... with [isAllowedStore] and
    [isAllowedWebsite]),
  - [net/ctxcors/service.go] ([Service.configByScopedGetter],
    [Service.getConfigByScopeID], [Service.getScopedConfig],
    [Service.Options]).

  Go's fixed-width integers are integers of [Z] with the conversions
  written out; a Go [error] is an [option error], [None] being [nil]. *)

From Stdlib Require Import ZArith Lia Bool Ascii String.
From stdpp Require Import base option list gmap strings.

Local Open Scope Z_scope.

(** ** Integer conversions of Go *)

Definition uint8 (z : Z) : Z := z mod 2 ^ 8.
Definition uint32 (z : Z) : Z := z mod 2 ^ 32.

Definition is_uint8 (z : Z) : Prop := 0 <= z < 2 ^ 8.
Definition is_uint32 (z : Z) : Prop := 0 <= z < 2 ^ 32.

(** ** Package scope *)

Module scope.

(** Modelled from the spec: the type [Scope] of the scope package, an
    8-bit scope tag; its declaring file is not among the sources.  The
    package's own test enumerates the kinds ([scope1 Scope = iota + 1]
    is ["Default"], then ["Website"], ["Group"], ["Store"]). *)
Definition Scope : Type := Z.

(** Modelled from the spec: the scope kinds
    [{Absent=0, Default, Website, Group, Store}] of the scope
    package, whose declaring file is missing. *)
Definition Absent : Scope := 0.
Definition Default : Scope := 1.
Definition Website : Scope := 2.
Definition Group : Scope := 3.
Definition Store : Scope := 4.

(** [type Hash uint32] *)
Definition Hash : Type := Z.

(** [const MaxStoreID int64 = 1<<23 - 1] *)
Definition MaxStoreID : Z := Z.shiftl 1 23 - 1.

(** [const DefaultHash Hash = Hash(Default)<<24 | 0] *)
Definition DefaultHash : Hash := Z.lor (uint32 (Z.shiftl Default 24)) 0.

(** Modelled from the spec: the constant [maxUint8] of the scope
    package (declared in a missing file), the largest 8-bit scope
    tag. *)
Definition maxUint8 : Z := Z.shiftl 1 8 - 1.

(** [func (h Hash) Unpack() (s Scope, id int64)] *)
Definition Unpack (h : Hash) : Scope * Z :=
  let prospectS := Z.shiftr h 24 in
  if (prospectS >? maxUint8) || (prospectS <? 0) then (Absent, -1)
  else
    let s := uint8 prospectS in
    let h64 := h in
    let prospectID := Z.lxor h64 (Z.shiftl (Z.shiftr h64 24) 24) in
    if (prospectID >? MaxStoreID) || (prospectID <? 0) then (Absent, -1)
    else (s, prospectID).

(** [func (h Hash) EqualScope(other Hash) bool] *)
Definition EqualScope (h other : Hash) : bool :=
  let hScope := Z.shiftr h 24 in
  if (hScope >? maxUint8) || (hScope <=? 0) then false
  else
    let oScope := Z.shiftr other 24 in
    if (oScope >? maxUint8) || (oScope <=? 0) then false
    else hScope =? oScope.

(** [func (h Hash) Scope() Scope] *)
Definition Hash_Scope (h : Hash) : Scope :=
  let hScope := Z.shiftr h 24 in
  if (hScope >? maxUint8) || (hScope <? 0) then Absent
  else uint8 hScope.

(** [func (h Hash) ID() int64] *)
Definition ID (h : Hash) : Z :=
  let h64 := h in
  let prospectID := Z.lxor h64 (Z.shiftl (Z.shiftr h64 24) 24) in
  if (prospectID >? MaxStoreID) || (prospectID <? 0) then -1
  else prospectID.

(** [func (h Hash) ValidParent(parent Hash) bool] *)
Definition ValidParent (h parent : Hash) : bool :=
  let '(p, pID) := Unpack parent in
  let '(c, cID) := Unpack h in
  ((p =? Default) && (pID =? 0) && (c =? Default) && (cID =? 0))
  || ((p =? Default) && (pID =? 0) && (c =? Website) && (cID >=? 0))
  || ((p =? Website) && (pID >=? 0) && (c =? Store) && (cID >=? 0)).

(** [const HashMaxSegments uint16 = 256] and
    [const hashBitAnd Hash = Hash(HashMaxSegments) - 1] *)
Definition HashMaxSegments : Z := 256.
Definition hashBitAnd : Hash := HashMaxSegments - 1.

(** [func (h Hash) Segment() uint8] *)
Definition Segment (h : Hash) : Z := uint8 (Z.land h hashBitAnd).

(** [func NewHash(s Scope, id int64) Hash] *)
Definition NewHash (s : Scope) (id : Z) : Hash :=
  if (id >? MaxStoreID) || ((s >? Default) && (id <? 0)) then 0
  else
    let id := if s <? Website then 0 else id in
    Z.lor (uint32 (Z.shiftl s 24)) (uint32 id).

(** Modelled from the spec: the permission bit set [Perm] of the scope
    package and its membership test [Has] (the declaring file is
    missing; the package test [TestScopeBits] builds a [Perm] from
    scopes and queries it with [Has]).  Bit [s] is set when scope [s]
    belongs to the set. *)
Definition Perm : Type := Z.

Definition Has (bits : Perm) (s : Scope) : bool :=
  negb (Z.land bits (Z.shiftl 1 s) =? 0).

(** Modelled from the spec: the reverse permission sets (missing
    constants of the scope package).  The Store attempt is reachable
    from the Store scope only; the Website attempt is reachable from
    the Website and the Store scope. *)
Definition PermStoreReverse : Perm := Z.shiftl 1 Store.
Definition PermWebsiteReverse : Perm :=
  Z.lor (Z.shiftl 1 Website) (Z.shiftl 1 Store).

(** [type Hashes []Hash] *)
Definition Hashes : Type := list Hash.

(** [h[i]] for an index of Go's [int]; [None] is the index-out-of-range
    panic. *)
Definition index (h : Hashes) (i : Z) : option Hash :=
  if i <? 0 then None else h !! Z.to_nat i.

(** [func (h Hashes) Len() int] *)
Definition Len (h : Hashes) : Z := Z.of_nat (length h).

(** [func (h Hashes) Swap(i, j int)], that is [h[i], h[j] = h[j], h[i]]:
    both elements are read, then [h[i]] and [h[j]] are assigned. *)
Definition Swap (h : Hashes) (i j : Z) : option Hashes :=
  match index h j, index h i with
  | Some hj, Some hi => Some (<[Z.to_nat j := hi]> (<[Z.to_nat i := hj]> h))
  | _, _ => None
  end.

(** [func (h Hashes) Less(i, j int) bool] *)
Definition Less (h : Hashes) (i j : Z) : option bool :=
  match index h i, index h j with
  | Some hi, Some hj => Some (hi <? hj)
  | _, _ => None
  end.

End scope.

(** ** Package errors *)

Module errors.

(** Modelled from the spec: the behaviour kinds of package
    [util/errors] (the package is not among the sources).  An error
    is created with a behaviour ([NewNotFoundf], [NewNotValidf], ...)
    or with none, and wrapping it with a contextual prefix keeps the
    classification of its cause. *)
Inductive Behaviour : Type :=
| NotFound
| NotValid
| NotSupported
| EmptyErr
| Fatal.

(** The arguments the formats of this development are filled with. *)
Inductive Arg : Type :=
| ArgRoute (r : string)
| ArgHash (h : Z).

Inductive error : Type :=
| NewError (b : option Behaviour) (format : string) (args : list Arg)
| Wrapped (cause : error) (format : string) (args : list Arg).

Fixpoint Cause (e : error) : option Behaviour :=
  match e with
  | NewError b _ _ => b
  | Wrapped c _ _ => Cause c
  end.

Definition NewNotValidf (format : string) (args : list Arg) : error :=
  NewError (Some NotValid) format args.

Definition NewNotSupportedf (format : string) (args : list Arg) : error :=
  NewError (Some NotSupported) format args.

(** [errors.Wrap] and [errors.Wrapf] of a non-nil error. *)
Definition Wrap (err : error) (message : string) : error :=
  Wrapped err message [].

Definition Wrapf (err : error) (format : string) (args : list Arg) : error :=
  Wrapped err format args.

Definition hasBehaviour (b : Behaviour) (err : option error) : bool :=
  match err with
  | None => false
  | Some e =>
      match Cause e, b with
      | Some NotFound, NotFound
      | Some NotValid, NotValid
      | Some NotSupported, NotSupported
      | Some EmptyErr, EmptyErr
      | Some Fatal, Fatal => true
      | _, _ => false
      end
  end.

Definition IsNotFound : option error -> bool := hasBehaviour NotFound.
Definition IsNotValid : option error -> bool := hasBehaviour NotValid.
Definition IsNotSupported : option error -> bool := hasBehaviour NotSupported.

(** [err == nil] *)
Definition isNil (err : option error) : bool :=
  match err with
  | None => true
  | Some _ => false
  end.

End errors.

(** ** Package cfgpath *)

Module cfgpath.

(** A route is the text ["section/group/field"]. *)
Definition Route : Type := string.

(** Modelled from the spec: the [Path] of package [cfgpath] (not among
    the sources), a route with the bound scope and ID captured as a
    [Hash]; [Scoped] reads and assigns its field [ScopeHash]. *)
Record Path : Type := mkPath {
  PathRoute : Route;
  ScopeHash : scope.Hash
}.

(** Modelled from the spec: [BindStore] and [BindWebsite] return a copy
    with the hash set to Store/id, respectively Website/id, and leave
    the route alone; they do not validate the id. *)
Definition BindStore (p : Path) (id : Z) : Path :=
  mkPath (PathRoute p) (scope.NewHash scope.Store id).

Definition BindWebsite (p : Path) (id : Z) : Path :=
  mkPath (PathRoute p) (scope.NewHash scope.Website id).

(** [p.ScopeHash = h] *)
Definition setScopeHash (p : Path) (h : scope.Hash) : Path :=
  mkPath (PathRoute p) h.

End cfgpath.

(** ** Package config: the Scoped resolver *)

Module config.
Import errors cfgpath.

Section Resolver.

(** Go's [float64] and [time.Time] are only passed through by the
    resolver; they stay abstract, with their zero values. *)
Variables (float64 Time : Type) (zeroFloat64 : float64) (zeroTime : Time).

(** [cfgpath.New], the Path constructor (the package is not among the
    sources): a Path for a well-formed route, an error for a malformed one. *)
Variable New : Route -> Path + error.

(** A byte slice; [None] is the [nil] slice. *)
Definition bytes : Type := option (list Byte.byte).

(** [type Getter interface]: the typed accessors of the backing store,
    keyed by a fully bound Path.  A Getter is taken as a function of the
    Path it is asked for. *)
Record Getter : Type := mkGetter {
  GetByte : Path -> bytes * option error;
  GetString : Path -> string * option error;
  GetBool : Path -> bool * option error;
  GetFloat64 : Path -> float64 * option error;
  GetInt : Path -> Z * option error;
  GetTime : Path -> Time * option error
}.

(** [type Scoped struct] *)
Record Scoped : Type := mkScoped {
  Root : Getter;
  WebsiteID : Z;
  StoreID : Z
}.

(** [func NewScoped(r Getter, websiteID, storeID int64) Scoped] *)
Definition NewScoped (r : Getter) (websiteID storeID : Z) : Scoped :=
  mkScoped r websiteID storeID.

(** [func (ss Scoped) Parent() (scope.Scope, int64)] *)
Definition Parent (ss : Scoped) : scope.Scope * Z :=
  if StoreID ss >? 0 then (scope.Website, WebsiteID ss)
  else (scope.Default, 0).

(** [func (ss Scoped) Scope() (scope.Scope, int64)] *)
Definition Scope (ss : Scoped) : scope.Scope * Z :=
  if StoreID ss >? 0 then (scope.Store, StoreID ss)
  else if WebsiteID ss >? 0 then (scope.Website, WebsiteID ss)
  else (scope.Default, 0).

(** The scope the permission checks use: [s[0]] when the variadic
    argument is supplied and is above [Absent], else [ss.Scope()]. *)
Definition effectiveScope (ss : Scoped) (s : list scope.Scope) : scope.Scope :=
  let scp := fst (Scope ss) in
  match s with
  | s0 :: _ => if s0 >? scope.Absent then s0 else scp
  | [] => scp
  end.

(** [func (ss Scoped) isAllowedStore(s ...scope.Scope) bool] *)
Definition isAllowedStore (ss : Scoped) (s : list scope.Scope) : bool :=
  let scp := effectiveScope ss s in
  (StoreID ss >? 0) && scope.Has scope.PermStoreReverse scp.

(** [func (ss Scoped) isAllowedWebsite(s ...scope.Scope) bool] *)
Definition isAllowedWebsite (ss : Scoped) (s : list scope.Scope) : bool :=
  let scp := effectiveScope ss s in
  (WebsiteID ss >? 0) && scope.Has scope.PermWebsiteReverse scp.

(** [!errors.IsNotFound(err) || err == nil]: the value is found, or the
    error is not a NotFound error. *)
Definition found (err : option error) : bool :=
  negb (IsNotFound err) || isNil err.

(** What an accessor hands back: the value, the hash of the scope that
    answered and the error, together with the Paths the root Getter was
    asked for, in call order. *)
Definition Answer (V : Type) : Type :=
  (V * scope.Hash * option error) * list Path.

(** One guarded attempt of the chain:
    [if allowed { p = bind(p); v, err := ss.Root.T(p); if found { return v, p.ScopeHash, err } }].
    It yields the Path as it stands afterwards, the Paths the root Getter
    was asked for, and the returned triple when the attempt returns. *)
Definition attempt {V : Type} (allowed : bool) (bind : Path -> Path)
    (get : Path -> V * option error) (p : Path)
  : Path * list Path * option (V * scope.Hash * option error) :=
  if allowed then
    let p := bind p in
    let '(v, err) := get p in
    (p, [p], if found err then Some (v, ScopeHash p, err) else None)
  else (p, [], None).

(** The body shared by the six typed accessors [Byte], [String], [Bool],
    [Float64], [Int] and [Time], which differ in the Getter method they
    call, in the zero value and in the name in the error message. *)
Definition traverse {V : Type} (get : Path -> V * option error) (zero : V)
    (format : string) (ss : Scoped) (r : Route) (s : list scope.Scope)
  : Answer V :=
  match New r with
  | inr err => ((zero, 0, Some (Wrapf err format [ArgRoute r])), [])
  | inl p =>
      let '(p, callsS, ret) :=
        attempt (isAllowedStore ss s) (fun p => BindStore p (StoreID ss)) get p in
      match ret with
      | Some res => (res, callsS)
      | None =>
          let '(p, callsW, ret) :=
            attempt (isAllowedWebsite ss s)
                    (fun p => BindWebsite p (WebsiteID ss)) get p in
          match ret with
          | Some res => (res, callsS ++ callsW)
          | None =>
              let p := setScopeHash p scope.DefaultHash in
              let '(v, err) := get p in
              ((v, scope.DefaultHash, err), callsS ++ callsW ++ [p])
          end
      end
  end.

(** [func (ss Scoped) Byte(r cfgpath.Route, s ...scope.Scope)] *)
Definition Byte (ss : Scoped) (r : Route) (s : list scope.Scope) : Answer bytes :=
  traverse (GetByte (Root ss)) None "[config] Byte. Route %q" ss r s.

(** [func (ss Scoped) String(r cfgpath.Route, s ...scope.Scope)] *)
Definition String (ss : Scoped) (r : Route) (s : list scope.Scope) : Answer string :=
  traverse (GetString (Root ss)) EmptyString "[config] String. Route %q" ss r s.

(** [func (ss Scoped) Bool(r cfgpath.Route, s ...scope.Scope)] *)
Definition Bool (ss : Scoped) (r : Route) (s : list scope.Scope) : Answer bool :=
  traverse (GetBool (Root ss)) false "[config] Bool. Route %q" ss r s.

(** [func (ss Scoped) Float64(r cfgpath.Route, s ...scope.Scope)] *)
Definition Float64 (ss : Scoped) (r : Route) (s : list scope.Scope) : Answer float64 :=
  traverse (GetFloat64 (Root ss)) zeroFloat64 "[config] Float64. Route %q" ss r s.

(** [func (ss Scoped) Int(r cfgpath.Route, s ...scope.Scope)] *)
Definition Int (ss : Scoped) (r : Route) (s : list scope.Scope) : Answer Z :=
  traverse (GetInt (Root ss)) 0 "[config] Int. Route %q" ss r s.

(** [func (ss Scoped) Time(r cfgpath.Route, s ...scope.Scope)] *)
Definition Time_ (ss : Scoped) (r : Route) (s : list scope.Scope) : Answer Time :=
  traverse (GetTime (Root ss)) zeroTime "[config] Time. Route %q" ss r s.

(** The six accessors under one index, to state a property of each. *)
Inductive Accessor : Type :=
| AByte | AString | ABool | AFloat64 | AInt | ATime.

Definition valueOf (a : Accessor) : Type :=
  match a with
  | AByte => bytes
  | AString => string
  | ABool => bool
  | AFloat64 => float64
  | AInt => Z
  | ATime => Time
  end.

Definition zeroOf (a : Accessor) : valueOf a :=
  match a with
  | AByte => None
  | AString => EmptyString
  | ABool => false
  | AFloat64 => zeroFloat64
  | AInt => 0
  | ATime => zeroTime
  end.

(** [ss.Root.T] for the accessor [T]. *)
Definition rootGet (a : Accessor) (g : Getter) : Path -> valueOf a * option error :=
  match a with
  | AByte => GetByte g
  | AString => GetString g
  | ABool => GetBool g
  | AFloat64 => GetFloat64 g
  | AInt => GetInt g
  | ATime => GetTime g
  end.

(** [ss.T(r, s...)] for the accessor [T]. *)
Definition access (a : Accessor) (ss : Scoped) (r : Route) (s : list scope.Scope)
  : Answer (valueOf a) :=
  match a with
  | AByte => Byte ss r s
  | AString => String ss r s
  | ABool => Bool ss r s
  | AFloat64 => Float64 ss r s
  | AInt => Int ss r s
  | ATime => Time_ ss r s
  end.

End Resolver.

Arguments mkGetter {float64 Time}.
Arguments GetByte {float64 Time}.
Arguments GetString {float64 Time}.
Arguments GetBool {float64 Time}.
Arguments GetFloat64 {float64 Time}.
Arguments GetInt {float64 Time}.
Arguments GetTime {float64 Time}.
Arguments mkScoped {float64 Time}.
Arguments Root {float64 Time}.
Arguments WebsiteID {float64 Time}.
Arguments StoreID {float64 Time}.
Arguments NewScoped {float64 Time}.
Arguments Parent {float64 Time}.
Arguments Scope {float64 Time}.
Arguments effectiveScope {float64 Time}.
Arguments isAllowedStore {float64 Time}.
Arguments isAllowedWebsite {float64 Time}.
Arguments traverse {float64 Time} New {V}.
Arguments Byte {float64 Time}.
Arguments String {float64 Time}.
Arguments Bool {float64 Time}.
Arguments Float64 {float64 Time}.
Arguments Int {float64 Time}.
Arguments Time_ {float64 Time}.
Arguments zeroOf {float64 Time}.
Arguments rootGet {float64 Time}.
Arguments access {float64 Time}.

End config.

(** ** Package ctxcors: the scoped-config cache of the CORS service *)

Module ctxcors.
Import errors.

Section Cache.

(** The logger and the CORS settings of a scoped configuration are
    declared in files of the package that are not among the sources;
    the service only copies the logger and asks for validity. *)
Variables (Logger Fields : Type) (zeroFields : Fields).

(** [type scopedConfig struct]: the logger ([nil] is [None]) and the
    other fields. *)
Record scopedConfig : Type := mkScopedConfig {
  log : option Logger;
  fields : Fields
}.

(** [scopedConfig{}] *)
Definition emptyConfig : scopedConfig := mkScopedConfig None zeroFields.

(** [func (sc scopedConfig) IsValid() bool] *)
Variable IsValid : scopedConfig -> bool.

(** [config.ScopedGetter], of which the service calls [Scope()]. *)
Variable ScopedGetter : Type.
Variable sgScope : ScopedGetter -> scope.Scope * Z.

(** [type Option func(s *Service)]: an option is a closure; it is known
    by what applying it does to the service ([applyOption] below). *)
Variable Option : Type.

(** [type ScopedOptionFunc func(config.ScopedGetter) []Option] *)
Definition ScopedOptionFunc : Type := option ScopedGetter -> list Option.

(** [type Service struct] (the mutex is left out: calls are taken one
    at a time). *)
Record Service : Type := mkService {
  optionError : option error;
  scpOptionFnc : option ScopedOptionFunc;
  defaultScopeCache : scopedConfig;
  scopeCache : gmap Z scopedConfig
}.

(** [opt(s)] *)
Variable applyOption : Option -> Service -> Service.

(** The package's error values and formats (declared in a missing file). *)
Variable errConfigNotFound : error.
Variables (errScopedConfigNotValid errServiceUnsupportedScope : string).

(** [WithDefaultConfig(scp, id)], an option of the package (declared in
    a missing file). *)
Variable WithDefaultConfig : scope.Scope -> Z -> Option.

(** [x == nil] *)
Definition isNone {A : Type} (x : option A) : bool :=
  match x with
  | None => true
  | Some _ => false
  end.

Definition setScopeCache (s : Service) (m : gmap Z scopedConfig) : Service :=
  mkService (optionError s) (scpOptionFnc s) (defaultScopeCache s) m.

(** What the cache lookups do besides returning: reads of the per-hash
    map and invocations of the scope option function. *)
Inductive Event : Type :=
| MapLookup (h : scope.Hash)
| OptionFncCall (sg : option ScopedGetter).

(** A call returns its pair of results, or panics on a nil logger. *)
Inductive Outcome : Type :=
| Return (sc : scopedConfig) (err : option error)
| Panic.

(** [func (s *Service) Options(opts ...Option) error].  The range over
    the map stops at the first hash above the Website scope; which one
    is first is up to the Go runtime, here it is the first of
    [map_to_list]. *)
Definition Options (opts : list Option) (s : Service) : option error * Service :=
  let s := foldl (fun s opt => applyOption opt s) s opts in
  match optionError s with
  | Some err => (Some err, s)
  | None =>
      match List.find (fun h => fst (scope.Unpack h) >? scope.Website)
                      (map_to_list (scopeCache s)).*1 with
      | Some h => (Some (NewNotSupportedf errServiceUnsupportedScope [ArgHash h]), s)
      | None => (None, s)
      end
  end.

(** [func New(opts ...Option)], which returns the service or an error. *)
Definition New (opts : list Option) : Service + error :=
  let s := mkService None None emptyConfig ∅ in
  match Options [WithDefaultConfig scope.Default 0] s with
  | (Some err, _) => inr (Wrap err "[ctxcors] Options WithDefaultConfig")
  | (None, s) =>
      match Options opts s with
      | (Some err, _) => inr (Wrap err "[ctxcors] Options Any Config")
      | (None, s) => inl s
      end
  end.

(** [func (s *Service) getScopedConfig(h scope.Hash) (sc scopedConfig, ok bool)]:
    an entry without a logger inherits the default entry's logger and is
    written back. *)
Definition getScopedConfig (h : scope.Hash) (s : Service)
  : (scopedConfig * bool) * Service :=
  match scopeCache s !! h with
  | Some sc =>
      match log sc with
      | None =>
          let sc := mkScopedConfig (log (defaultScopeCache s)) (fields sc) in
          ((sc, true), setScopeCache s (<[h := sc]> (scopeCache s)))
      | Some _ => ((sc, true), s)
      end
  | None => ((emptyConfig, false), s)
  end.

(** [func (s *Service) getConfigByScopeID(fallback bool, hash scope.Hash) (scopedConfig, error)].
    On the fallback to an invalid default entry the function asks the
    default entry's logger [IsDebug()], a call that panics when that
    logger is nil; the log output itself is left out. *)
Definition getConfigByScopeID (fallback : bool) (hash : scope.Hash) (s : Service)
  : Outcome * Service * list Event :=
  let empty := emptyConfig in
  let '((scpCfg, ok), s) := getScopedConfig hash s in
  if ok then
    if IsValid scpCfg then (Return scpCfg None, s, [MapLookup hash])
    else (Return empty (Some (NewNotValidf errScopedConfigNotValid [ArgHash hash])),
          s, [MapLookup hash])
  else if fallback then
    if negb (IsValid (defaultScopeCache s)) then
      match log (defaultScopeCache s) with
      | None => (Panic, s, [MapLookup hash])
      | Some _ => (Return (defaultScopeCache s) (Some errConfigNotFound),
                   s, [MapLookup hash])
      end
    else (Return (defaultScopeCache s) None, s, [MapLookup hash])
  else (Return empty (Some errConfigNotFound), s, [MapLookup hash]).

(** The hash a lookup is made for: [scope.NewHash(sg.Scope())], or
    [scope.DefaultHash] for a nil getter. *)
Definition hashOf (sg : option ScopedGetter) : scope.Hash :=
  match sg with
  | Some g => let '(scp, id) := sgScope g in scope.NewHash scp id
  | None => scope.DefaultHash
  end.

(** [func (s *Service) configByScopedGetter(sg config.ScopedGetter) (scopedConfig, error)] *)
Definition configByScopedGetter (sg : option ScopedGetter) (s : Service)
  : Outcome * Service * list Event :=
  let h := hashOf sg in
  if (isNone (scpOptionFnc s) || isNone sg)
     && (h =? scope.DefaultHash) && IsValid (defaultScopeCache s)
  then (Return (defaultScopeCache s) None, s, [])
  else
    let '(res, s, ev1) := getConfigByScopeID false h s in
    match res with
    | Panic => (Panic, s, ev1)
    | Return sc None => (Return sc None, s, ev1)
    | Return _ (Some _) =>
        match scpOptionFnc s with
        | Some fnc =>
            let opts := fnc sg in
            match Options opts s with
            | (Some err, s) =>
                (Return emptyConfig (Some (Wrap err "[jwtauth] Options by scpOptionFnc")),
                 s, ev1 ++ [OptionFncCall sg])
            | (None, s) =>
                let '(res, s, ev2) := getConfigByScopeID true h s in
                (res, s, ev1 ++ [OptionFncCall sg] ++ ev2)
            end
        | None =>
            let '(res, s, ev2) := getConfigByScopeID true h s in
            (res, s, ev1 ++ ev2)
        end
    end.

(** [func (s *Service) AddError(err error)]: the error is stored only
    when none is stored yet; otherwise it is dropped, after asking the
    default entry's logger [IsDebug()], which panics ([None]) on a nil
    logger. *)
Definition AddError (err : option error) (s : Service) : option Service :=
  match optionError s with
  | Some _ =>
      match log (defaultScopeCache s) with
      | None => None
      | Some _ => Some s
      end
  | None =>
      Some (mkService err (scpOptionFnc s) (defaultScopeCache s) (scopeCache s))
  end.

End Cache.

Arguments mkScopedConfig {Logger Fields}.
Arguments log {Logger Fields}.
Arguments fields {Logger Fields}.
Arguments emptyConfig {Logger Fields}.
Arguments mkService {Logger Fields ScopedGetter Option}.
Arguments optionError {Logger Fields ScopedGetter Option}.
Arguments scpOptionFnc {Logger Fields ScopedGetter Option}.
Arguments defaultScopeCache {Logger Fields ScopedGetter Option}.
Arguments scopeCache {Logger Fields ScopedGetter Option}.
Arguments setScopeCache {Logger Fields ScopedGetter Option}.
Arguments MapLookup {ScopedGetter}.
Arguments OptionFncCall {ScopedGetter}.
Arguments Return {Logger Fields}.
Arguments Panic {Logger Fields}.
Arguments Options {Logger Fields ScopedGetter Option}.
Arguments New {Logger Fields}  zeroFields {ScopedGetter Option}.
Arguments getScopedConfig {Logger Fields} zeroFields {ScopedGetter Option}.
Arguments getConfigByScopeID {Logger Fields} zeroFields IsValid
  {ScopedGetter Option}.
Arguments AddError {Logger Fields ScopedGetter Option}.
Arguments hashOf {ScopedGetter}.
Arguments configByScopedGetter {Logger Fields} zeroFields IsValid
  {ScopedGetter} sgScope {Option}.

End ctxcors.

(** ** A small store to run the resolver on *)

Module cfgmock.
Import errors cfgpath.

(** The segments of a route, split at ["/"]. *)
Fixpoint segments (r : string) (cur : string) : list string :=
  match r with
  | EmptyString => [cur]
  | String c r' =>
      if Ascii.eqb c "/"%char then cur :: segments r' EmptyString
      else segments r' (cur ++ String c EmptyString)
  end.

(** Modelled from the spec: an instance of the Path constructor
    [cfgpath.New] (the package is not among the sources).  A route of
    three non-empty segments is well formed and starts out unbound, at
    the default hash; any other route is rejected with a NotValid
    error. *)
Definition New (r : Route) : Path + error :=
  let segs := segments r EmptyString in
  if (length segs =? 3)%nat && forallb (fun sg => negb (String.eqb sg EmptyString)) segs
  then inl (mkPath r scope.DefaultHash)
  else inr (NewNotValidf "[cfgpath] Incorrect Path: %q" [ArgRoute r]).

Definition errKeyNotFound : error :=
  NewError (Some NotFound) "[config] Key not found" [].

Definition errFatal : error :=
  NewError (Some Fatal) "[cfgmodel] Cannot parse" [].

(** A store of string values keyed by the bound scope hash and the
    route; an entry holds the value or the error the store reports. *)
Definition PathValue : Type := list (Z * string * (string + error)).

Definition lookupPV (pv : PathValue) (p : Path) : string * option error :=
  match List.find (fun kv => (fst (fst kv) =? ScopeHash p)
                             && String.eqb (snd (fst kv)) (PathRoute p)) pv with
  | Some (_, inl v) => (v, None)
  | Some (_, inr e) => (EmptyString, Some e)
  | None => (EmptyString, Some errKeyNotFound)
  end.

(** The Getter over such a store; only strings are kept, every other
    type is reported as not found. *)
Definition NewService (pv : PathValue) : config.Getter Z Z :=
  config.mkGetter
    (fun _ => (None, Some errKeyNotFound))
    (lookupPV pv)
    (fun _ => (false, Some errKeyNotFound))
    (fun _ => (0, Some errKeyNotFound))
    (fun _ => (0, Some errKeyNotFound))
    (fun _ => (0, Some errKeyNotFound)).

(** The route and the resolvers of the examples: a value at Default
    scope only, and a value the store cannot deliver at Store scope. *)
Definition route : Route := "web/unsecure/url"%string.

Definition unbound : Path := mkPath route scope.DefaultHash.

Definition atDefault : config.Scoped Z Z :=
  config.NewScoped
    (NewService [((scope.DefaultHash, route), inl "http://cs.io"%string)]) 1 1.

Definition brokenAtStore : config.Scoped Z Z :=
  config.NewScoped
    (NewService
       [((scope.NewHash scope.Store 1, route), inr errFatal);
        ((scope.DefaultHash, route), inl "http://cs.io"%string)]) 1 1.

(** A value at Website scope only, for the website with ID 1. *)
Definition atWebsite : config.Scoped Z Z :=
  config.NewScoped
    (NewService
       [((scope.NewHash scope.Website 1, route), inl "http://cs.io"%string)]) 1 1.

(** The same store behind a resolver for website 2 and store 5, and
    behind one at the default scope. *)
Definition elsewhere : config.Scoped Z Z :=
  config.NewScoped
    (NewService
       [((scope.NewHash scope.Website 1, route), inl "http://cs.io"%string)]) 2 5.

Definition defaultScoped : config.Scoped Z Z :=
  config.NewScoped
    (NewService [((scope.DefaultHash, route), inl "http://cs.io"%string)]) 0 0.

End cfgmock.

(** ** A small CORS service to run the cache on *)

Module corsmock.
Import errors.

(** The logger carries nothing; the settings are reduced to whether
    they are complete, which is what makes a configuration valid. *)
Definition Config : Type := ctxcors.scopedConfig unit bool.

Definition IsValid (sc : Config) : bool := ctxcors.fields sc.

(** A scoped getter is known by the scope and ID it reports. *)
Definition ScopedGetter : Type := scope.Scope * Z.

Definition sgScope (sg : ScopedGetter) : scope.Scope * Z := sg.

(** Two options: one that records an error (as [AddError] does, the
    first error is kept), one that stores a configuration for a hash. *)
Inductive Option : Type :=
| WithError (e : error)
| WithConfig (h : Z) (sc : Config).

Definition Service : Type := ctxcors.Service unit bool ScopedGetter Option.

Definition applyOption (o : Option) (s : Service) : Service :=
  match o with
  | WithError e =>
      ctxcors.mkService
        (match ctxcors.optionError s with
         | Some e0 => Some e0
         | None => Some e
         end)
        (ctxcors.scpOptionFnc s) (ctxcors.defaultScopeCache s)
        (ctxcors.scopeCache s)
  | WithConfig h sc =>
      ctxcors.setScopeCache s (<[h := sc]> (ctxcors.scopeCache s))
  end.

Definition errConfigNotFound : error :=
  NewError (Some NotFound) "[ctxcors] ScopedConfig not available" [].

Definition errBackend : error :=
  NewError (Some Fatal) "[ctxcors] Backend not reachable" [].

Definition validConfig : Config := ctxcors.mkScopedConfig (Some tt) true.

(** A service with a valid default entry and an empty map, without and
    with a scope option function. *)
Definition plain : Service :=
  ctxcors.mkService None None validConfig ∅.

Definition hooked (fnc : option ScopedGetter -> list Option) : Service :=
  ctxcors.mkService None (Some fnc) validConfig ∅.

(** The examples: a hook whose option records an error, a hook that
    adds nothing, a Default-scoped and a Website-scoped getter, and an
    entry without a logger. *)
Definition failing : Service := hooked (fun _ => [WithError errBackend]).

Definition idle : Service := hooked (fun _ => []).

Definition sgDefault : option ScopedGetter := Some (scope.Default, 0).

Definition sgWebsite2 : option ScopedGetter := Some (scope.Website, 2).

Definition bareConfig : Config := ctxcors.mkScopedConfig None true.

Definition configByScopedGetter (sg : option ScopedGetter) (s : Service) :=
  ctxcors.configByScopedGetter false IsValid sgScope applyOption
    errConfigNotFound "[ctxcors] ScopedConfig %s invalid"
    "[ctxcors] Service does not support this: %s" sg s.


(** A hook that stores a complete configuration, without logger, for
    website 2; an invalid entry; a service that holds it. *)
Definition populating : Service :=
  hooked (fun _ => [WithConfig (scope.NewHash scope.Website 2) bareConfig]).

Definition brokenConfig : Config := ctxcors.mkScopedConfig (Some tt) false.

Definition withBroken : Service :=
  ctxcors.mkService None None validConfig
    (<[scope.NewHash scope.Website 2 := brokenConfig]> ∅).

Definition withStoreEntry : Service :=
  ctxcors.mkService None None validConfig
    (<[scope.NewHash scope.Store 1 := validConfig]> ∅).

(** A service whose default entry is incomplete and has no logger. *)
Definition unconfigured : Service :=
  ctxcors.mkService None None (ctxcors.mkScopedConfig None false) ∅.

Definition WithDefaultConfig (scp : scope.Scope) (id : Z) : Option :=
  WithConfig (scope.NewHash scp id) validConfig.

Definition Options (opts : list Option) (s : Service) :=
  ctxcors.Options applyOption "[ctxcors] Service does not support this: %s" opts s.

Definition New (opts : list Option) : Service + error :=
  ctxcors.New false applyOption "[ctxcors] Service does not support this: %s"
    WithDefaultConfig opts.

End corsmock.

(** * Verification *)

(** ** Bit-level facts about hashes *)

Section HashBits.
Import scope.

Lemma low24_of (h : Z) :
  Z.lxor h (Z.shiftl (Z.shiftr h 24) 24) = h mod 2 ^ 24.
Proof.
  apply Z.bits_inj'. intros n Hn.
  rewrite Z.lxor_spec.
  destruct (Z_lt_ge_dec n 24) as [Hlt | Hge].
  - rewrite Z.shiftl_spec_low by lia.
    rewrite Z.mod_pow2_bits_low by lia.
    apply xorb_false_r.
  - rewrite Z.shiftl_spec by lia.
    rewrite Z.shiftr_spec by lia.
    replace (n - 24 + 24) with n by lia.
    rewrite xorb_nilpotent.
    symmetry. apply Z.mod_pow2_bits_high. lia.
Qed.

Lemma tag_of (h : Z) : Z.shiftr h 24 = h / 2 ^ 24.
Proof. apply Z.shiftr_div_pow2. lia. Qed.

Lemma tag_range (h : Z) : is_uint32 h -> 0 <= h / 2 ^ 24 < 2 ^ 8.
Proof.
  unfold is_uint32. intros [H0 H1]. split.
  - apply Z.div_pos; lia.
  - apply Z.div_lt_upper_bound; lia.
Qed.

Lemma split24 (h : Z) :
  h = 2 ^ 24 * (h / 2 ^ 24) + h mod 2 ^ 24 /\ 0 <= h mod 2 ^ 24 < 2 ^ 24.
Proof.
  split.
  - apply Z.div_mod. lia.
  - apply Z.mod_pos_bound. lia.
Qed.

(** What [Unpack] computes on a 32-bit hash, in arithmetic terms. *)
Lemma Unpack_arith (h : Hash) :
  is_uint32 h ->
  Unpack h =
    if h mod 2 ^ 24 >? MaxStoreID then (Absent, -1)
    else (h / 2 ^ 24, h mod 2 ^ 24).
Proof.
  intros Hh. unfold Unpack.
  rewrite low24_of, tag_of.
  pose proof (tag_range h Hh) as Ht.
  destruct (split24 h) as [_ Hm].
  unfold maxUint8. change (Z.shiftl 1 8 - 1) with 255.
  destruct (Z.gtb_spec (h / 2 ^ 24) 255); [lia |].
  destruct (Z.ltb_spec (h / 2 ^ 24) 0); [lia |].
  cbn [orb].
  destruct (Z.ltb_spec (h mod 2 ^ 24) 0); [lia |].
  rewrite orb_false_r.
  unfold uint8. rewrite (Z.mod_small (h / 2 ^ 24)) by lia.
  reflexivity.
Qed.

Lemma ID_arith (h : Hash) :
  ID h = if h mod 2 ^ 24 >? MaxStoreID then -1 else h mod 2 ^ 24.
Proof.
  unfold ID. rewrite low24_of.
  destruct (split24 h) as [_ Hm].
  destruct (Z.ltb_spec (h mod 2 ^ 24) 0); [lia |].
  now rewrite orb_false_r.
Qed.

(** The scope byte of a 32-bit hash, as [Scope()] and [EqualScope] read it. *)
Lemma Hash_Scope_arith (h : Hash) :
  is_uint32 h -> Hash_Scope h = h / 2 ^ 24.
Proof.
  intros Hh. unfold Hash_Scope. rewrite tag_of.
  pose proof (tag_range h Hh) as Ht.
  unfold maxUint8. change (Z.shiftl 1 8 - 1) with 255.
  destruct (Z.gtb_spec (h / 2 ^ 24) 255); [lia |].
  destruct (Z.ltb_spec (h / 2 ^ 24) 0); [lia |].
  cbn [orb]. unfold uint8. apply Z.mod_small. lia.
Qed.

(** A tag and an id that fits in 24 bits pack by plain addition. *)
Lemma pack_add (s id : Z) :
  is_uint8 s -> 0 <= id < 2 ^ 24 ->
  Z.lor (uint32 (Z.shiftl s 24)) (uint32 id) = s * 2 ^ 24 + id.
Proof.
  unfold is_uint8, uint32. intros Hs Hid.
  rewrite Z.shiftl_mul_pow2 by lia.
  rewrite (Z.mod_small (s * 2 ^ 24)) by lia.
  rewrite (Z.mod_small id) by lia.
  symmetry. apply Z.add_nocarry_lor.
  apply Z.bits_inj'. intros n Hn.
  rewrite Z.land_spec, Z.bits_0.
  destruct (Z_lt_ge_dec n 24) as [Hlt | Hge].
  - rewrite Z.mul_pow2_bits_low by lia. reflexivity.
  - replace id with (id mod 2 ^ 24) by (apply Z.mod_small; lia).
    rewrite Z.mod_pow2_bits_high by lia. apply andb_false_r.
Qed.

Lemma pack_div (s id : Z) :
  0 <= id < 2 ^ 24 -> (s * 2 ^ 24 + id) / 2 ^ 24 = s.
Proof.
  intros Hid. rewrite Z.add_comm, Z.div_add by lia.
  rewrite Z.div_small by lia. lia.
Qed.

Lemma pack_mod (s id : Z) :
  0 <= id < 2 ^ 24 -> (s * 2 ^ 24 + id) mod 2 ^ 24 = id.
Proof.
  intros Hid. rewrite Z.add_comm, Z.mod_add by lia.
  apply Z.mod_small. lia.
Qed.

Lemma pack_uint32 (s id : Z) :
  is_uint8 s -> 0 <= id < 2 ^ 24 -> is_uint32 (s * 2 ^ 24 + id).
Proof. unfold is_uint8, is_uint32. lia. Qed.

(** [NewHash] on a scope above Default and an id in range. *)
Lemma NewHash_arith (s id : Z) :
  Website <= s < 2 ^ 8 -> 0 <= id <= MaxStoreID ->
  NewHash s id = s * 2 ^ 24 + id.
Proof.
  unfold Website. change MaxStoreID with 8388607. intros Hs Hid.
  unfold NewHash. change MaxStoreID with 8388607. unfold Website, Default.
  destruct (Z.gtb_spec id 8388607); [lia |].
  destruct (Z.ltb_spec id 0); [lia |].
  rewrite andb_false_r. cbn [orb].
  destruct (Z.ltb_spec s 2); [lia |].
  apply pack_add; unfold is_uint8; lia.
Qed.

Lemma NewHash_Default : NewHash Default 0 = DefaultHash.
Proof. reflexivity. Qed.

Lemma DefaultHash_value : DefaultHash = 2 ^ 24.
Proof. reflexivity. Qed.

(** [NewHash] always yields a 32-bit value. *)
Lemma NewHash_uint32 (s id : Z) : is_uint32 (NewHash s id).
Proof.
  unfold NewHash.
  destruct ((id >? MaxStoreID) || ((s >? Default) && (id <? 0))).
  - unfold is_uint32. lia.
  - set (i := if s <? Website then 0 else id).
    unfold uint32, is_uint32.
    pose proof (Z.mod_pos_bound (Z.shiftl s 24) (2 ^ 32) ltac:(lia)) as Ha.
    pose proof (Z.mod_pos_bound i (2 ^ 32) ltac:(lia)) as Hb.
    split.
    + apply Z.lor_nonneg. lia.
    + destruct (Z.eq_dec (Z.lor (Z.shiftl s 24 mod 2 ^ 32) (i mod 2 ^ 32)) 0) as [-> | Hne];
        [lia |].
      apply Z.log2_lt_pow2.
      * assert (0 <= Z.lor (Z.shiftl s 24 mod 2 ^ 32) (i mod 2 ^ 32))
          by (apply Z.lor_nonneg; lia). lia.
      * rewrite Z.log2_lor by lia.
        apply Z.max_lub_lt.
        -- destruct (Z.eq_dec (Z.shiftl s 24 mod 2 ^ 32) 0) as [-> | Hn1];
             [cbn; lia | apply Z.log2_lt_pow2; lia].
        -- destruct (Z.eq_dec (i mod 2 ^ 32) 0) as [-> | Hn2];
             [cbn; lia | apply Z.log2_lt_pow2; lia].
Qed.

End HashBits.

(** ** Hashes: round trip, overflow, parent chain, scope equality *)

Section HashClaims.
Import scope.

(** The round trip for a scope above Default. *)
Lemma Unpack_NewHash_above (s : Scope) (id : Z) :
  Website <= s < 2 ^ 8 -> 0 <= id <= MaxStoreID ->
  Unpack (NewHash s id) = (s, id).
Proof.
  intros Hr Hid.
  rewrite (NewHash_arith s id Hr Hid).
  change MaxStoreID with 8388607 in Hid.
  rewrite Unpack_arith
    by (apply pack_uint32; unfold is_uint8, Website in *; lia).
  rewrite pack_mod, pack_div by lia.
  change MaxStoreID with 8388607.
  destruct (Z.gtb_spec id 8388607); [lia | reflexivity].
Qed.

(** C5. For every valid (scope, id) pair with id in [0, MaxStoreID]
    (Default pairing only with id 0; Website and Store pairing with any
    id in range), [Unpack (NewHash scope id)] returns exactly
    [(scope, id)]: packing followed by unpacking is the identity on
    valid pairs. *)
Theorem Unpack_NewHash_roundtrip (s : Scope) (id : Z) :
  0 <= id <= MaxStoreID ->
  (s = Default /\ id = 0) \/ s = Website \/ s = Store ->
  Unpack (NewHash s id) = (s, id).
Proof.
  intros Hid [[-> ->] | Hs].
  - reflexivity.
  - apply Unpack_NewHash_above; [| exact Hid].
    destruct Hs as [-> | ->]; unfold Website, Store; lia.
Qed.

Lemma Unpack_NewHash_roundtrip_witness :
  Unpack (NewHash Store 33) = (Store, 33).
Proof.
  apply Unpack_NewHash_roundtrip.
  - change MaxStoreID with 8388607. lia.
  - right. right. reflexivity.
Defined.

(** C6, as the spec states it, fails on [NewHash]: the hash made for
    (Website, MaxStoreID+1) unpacks with ID 0, not -1. *)
Lemma NewHash_overflow_ID_is_not_minus_one :
  ~ (Unpack (NewHash Website (MaxStoreID + 1)) = (Absent, -1)
     /\ Unpack (uint32 (-1)) = (Absent, -1)).
Proof. intros [H _]. vm_compute in H. discriminate H. Qed.

(** C6, amended.  [NewHash] of an id above MaxStoreID (so of
    (Website, MaxStoreID+1)) is the zero hash, which unpacks as
    (Absent, 0); [Unpack] and [ID] of a raw 32-bit hash whose embedded
    id (its low 24 bits) exceeds MaxStoreID report (Absent, -1) and -1.
    The id is neither wrapped nor truncated. *)
Theorem Hash_overflow_reported (s : Scope) (id : Z) (h : Hash) :
  MaxStoreID < id ->
  is_uint32 h -> MaxStoreID < h mod 2 ^ 24 ->
  NewHash s id = 0
  /\ NewHash Website (MaxStoreID + 1) = 0
  /\ Unpack 0 = (Absent, 0)
  /\ Unpack h = (Absent, -1)
  /\ ID h = -1.
Proof.
  intros Hid Hh Hlow. repeat split.
  - unfold NewHash.
    destruct (Z.gtb_spec id MaxStoreID); [reflexivity | lia].
  - rewrite (Unpack_arith h Hh).
    destruct (Z.gtb_spec (h mod 2 ^ 24) MaxStoreID); [reflexivity | lia].
  - rewrite ID_arith.
    destruct (Z.gtb_spec (h mod 2 ^ 24) MaxStoreID); [reflexivity | lia].
Qed.

Lemma Hash_overflow_reported_witness :
  NewHash Store (MaxStoreID + 5) = 0
  /\ NewHash Website (MaxStoreID + 1) = 0
  /\ Unpack 0 = (Absent, 0)
  /\ Unpack (uint32 (-1)) = (Absent, -1)
  /\ ID (uint32 (-1)) = -1.
Proof.
  apply (Hash_overflow_reported Store (MaxStoreID + 5) (uint32 (-1))).
  - lia.
  - vm_compute. split; [discriminate | reflexivity].
  - vm_compute. reflexivity.
Defined.

(** How a 32-bit hash unpacks to a scope with a non-negative id. *)
Lemma Unpack_valid_iff (h : Hash) (s id : Z) :
  is_uint32 h -> 0 <= id ->
  Unpack h = (s, id) <-> h = s * 2 ^ 24 + id /\ id <= MaxStoreID.
Proof.
  intros Hh Hid. rewrite (Unpack_arith h Hh).
  destruct (split24 h) as [Heq Hm].
  change MaxStoreID with 8388607.
  destruct (Z.gtb_spec (h mod 2 ^ 24) 8388607) as [Hgt | Hle]; split.
  - intros H. inversion H. lia.
  - intros [-> Hb]. rewrite pack_mod in Hgt by lia. lia.
  - intros H. inversion H. subst. lia.
  - intros [-> Hb]. rewrite pack_mod, pack_div by lia. reflexivity.
Qed.

Lemma Unpack_id_range (h : Hash) :
  is_uint32 h -> -1 <= snd (Unpack h) <= MaxStoreID.
Proof.
  intros Hh. rewrite (Unpack_arith h Hh).
  destruct (split24 h) as [_ Hm].
  change MaxStoreID with 8388607.
  destruct (Z.gtb_spec (h mod 2 ^ 24) 8388607); cbn [snd]; lia.
Qed.

(** [ValidParent] in terms of what the two hashes unpack to. *)
Lemma ValidParent_unpack (h parent : Hash) :
  ValidParent h parent = true <->
  (Unpack parent = (Default, 0) /\ Unpack h = (Default, 0))
  \/ (Unpack parent = (Default, 0)
      /\ fst (Unpack h) = Website /\ 0 <= snd (Unpack h))
  \/ (fst (Unpack parent) = Website /\ 0 <= snd (Unpack parent)
      /\ fst (Unpack h) = Store /\ 0 <= snd (Unpack h)).
Proof.
  unfold ValidParent.
  destruct (Unpack parent) as [p pID], (Unpack h) as [c cID]. cbn [fst snd].
  rewrite !orb_true_iff, !andb_true_iff, !Z.eqb_eq, !Z.geb_le.
  split.
  - intros [[H | H] | H]; [left | right; left | right; right];
      intuition congruence.
  - intros [[H1 H2] | [[H1 H2] | H]].
    + inversion H1; inversion H2. left. left. auto.
    + inversion H1. left. right. intuition.
    + right. intuition.
Qed.

Lemma Unpack_DefaultHash_iff (h : Hash) :
  is_uint32 h -> Unpack h = (Default, 0) <-> h = DefaultHash.
Proof.
  intros Hh. rewrite (Unpack_valid_iff h Default 0 Hh) by lia.
  rewrite DefaultHash_value. unfold Default.
  change MaxStoreID with 8388607. lia.
Qed.

Lemma Unpack_scoped_iff (h : Hash) (s : Scope) :
  is_uint32 h -> Website <= s < 2 ^ 8 ->
  fst (Unpack h) = s /\ 0 <= snd (Unpack h) <->
  exists id, 0 <= id <= MaxStoreID /\ h = NewHash s id.
Proof.
  intros Hh Hs. split.
  - intros [H1 H2]. exists (snd (Unpack h)).
    pose proof (Unpack_id_range h Hh) as Hr.
    assert (Hu : Unpack h = (s, snd (Unpack h)))
      by (rewrite <- H1; apply surjective_pairing).
    apply (Unpack_valid_iff h s _ Hh H2) in Hu. destruct Hu as [Hu Hb].
    split; [lia |].
    rewrite NewHash_arith by lia. exact Hu.
  - intros (id & Hid & ->).
    rewrite (Unpack_NewHash_above s id Hs Hid). cbn [fst snd]. lia.
Qed.

(** C7. [ValidParent parent] on a child hash is true for exactly three
    (parent, child) chains: Default/0 to Default/0, Default/0 to
    Website/id, and Website/id to Store/id' with ids in range.  It is
    false for every other pair: for a self-pair other than
    Default/Default, and for a pair in which either hash unpacks as
    invalid. *)
Theorem ValidParent_three_chains (h parent : Hash) :
  is_uint32 h -> is_uint32 parent ->
  (ValidParent h parent = true <->
     (parent = NewHash Default 0 /\ h = NewHash Default 0)
     \/ (parent = NewHash Default 0
         /\ exists id, 0 <= id <= MaxStoreID /\ h = NewHash Website id)
     \/ (exists pid cid,
           0 <= pid <= MaxStoreID /\ 0 <= cid <= MaxStoreID
           /\ parent = NewHash Website pid /\ h = NewHash Store cid))
  /\ (ValidParent h h = true -> h = DefaultHash)
  /\ (Unpack h = (Absent, -1) \/ Unpack parent = (Absent, -1) ->
      ValidParent h parent = false).
Proof.
  intros Hh Hp.
  assert (HW : Website <= Website < 2 ^ 8) by (unfold Website; lia).
  assert (HS : Website <= Store < 2 ^ 8) by (unfold Website, Store; lia).
  split; [| split].
  - rewrite ValidParent_unpack, NewHash_Default.
    rewrite !(Unpack_DefaultHash_iff _ Hh), !(Unpack_DefaultHash_iff _ Hp).
    rewrite (Unpack_scoped_iff h Website Hh HW).
    split.
    + intros [H | [H | (H1 & H2 & H3)]]; [left; exact H | right; left; exact H |].
      right. right.
      destruct (proj1 (Unpack_scoped_iff parent Website Hp HW) (conj H1 H2))
        as (pid & Hpid & Ep).
      destruct (proj1 (Unpack_scoped_iff h Store Hh HS) H3) as (cid & Hcid & Ec).
      exists pid, cid. auto.
    + intros [H | [H | (pid & cid & Hpid & Hcid & Ep & Ec)]];
        [left; exact H | right; left; exact H |].
      right. right.
      destruct (proj2 (Unpack_scoped_iff parent Website Hp HW)
                      (ex_intro _ pid (conj Hpid Ep))) as [H1 H2].
      destruct (proj2 (Unpack_scoped_iff h Store Hh HS)
                      (ex_intro _ cid (conj Hcid Ec))) as [H3 H4].
      auto.
  - rewrite ValidParent_unpack.
    intros [[H _] | [[H [H' _]] | (H & _ & H' & _)]].
    + apply (Unpack_DefaultHash_iff h Hh). exact H.
    + rewrite H in H'. discriminate H'.
    + rewrite H in H'. discriminate H'.
  - intros Hbad.
    destruct (ValidParent h parent) eqn:E; [| reflexivity].
    apply ValidParent_unpack in E. exfalso.
    destruct Hbad as [Hb | Hb]; rewrite Hb in E; cbn [fst snd] in E;
      destruct E as [[H1 H2] | [(H1 & H2 & H3) | (H1 & H2 & H3 & H4)]];
      try discriminate; lia.
Qed.

Lemma ValidParent_three_chains_witness :
  (ValidParent (NewHash Store 3) (NewHash Website 2) = true <->
     (NewHash Website 2 = NewHash Default 0 /\ NewHash Store 3 = NewHash Default 0)
     \/ (NewHash Website 2 = NewHash Default 0
         /\ exists id, 0 <= id <= MaxStoreID /\ NewHash Store 3 = NewHash Website id)
     \/ (exists pid cid,
           0 <= pid <= MaxStoreID /\ 0 <= cid <= MaxStoreID
           /\ NewHash Website 2 = NewHash Website pid
           /\ NewHash Store 3 = NewHash Store cid))
  /\ (ValidParent (NewHash Store 3) (NewHash Store 3) = true ->
      NewHash Store 3 = DefaultHash)
  /\ (Unpack (NewHash Store 3) = (Absent, -1)
      \/ Unpack (NewHash Website 2) = (Absent, -1) ->
      ValidParent (NewHash Store 3) (NewHash Website 2) = false).
Proof.
  apply (ValidParent_three_chains (NewHash Store 3) (NewHash Website 2)).
  - vm_compute. split; [discriminate | reflexivity].
  - vm_compute. split; [discriminate | reflexivity].
Defined.

(** C8, as the spec states it, fails: a Website hash whose id part is
    MaxStoreID+1 unpacks as invalid, and still [EqualScope] holds of it
    and itself. *)
Lemma EqualScope_ignores_id_overflow :
  is_uint32 (Z.lor (Z.shiftl Website 24) (MaxStoreID + 1))
  /\ Unpack (Z.lor (Z.shiftl Website 24) (MaxStoreID + 1)) = (Absent, -1)
  /\ EqualScope (Z.lor (Z.shiftl Website 24) (MaxStoreID + 1))
                (Z.lor (Z.shiftl Website 24) (MaxStoreID + 1)) = true.
Proof. vm_compute. repeat split; discriminate. Qed.

(** C8, amended.  For every pair of 32-bit hashes, [EqualScope] is
    false whenever the scope part (the upper 8 bits) of either hash is
    Absent, even when the two raw patterns are identical; otherwise it
    compares the scope parts.  The id part is not looked at. *)
Theorem EqualScope_by_scope_part (h other : Hash) :
  is_uint32 h -> is_uint32 other ->
  (Hash_Scope h = Absent \/ Hash_Scope other = Absent ->
   EqualScope h other = false)
  /\ (Hash_Scope h = Absent -> EqualScope h h = false)
  /\ (EqualScope h other = true <->
      Hash_Scope h = Hash_Scope other /\ Hash_Scope h <> Absent).
Proof.
  intros Hh Ho.
  assert (E : EqualScope h other = true <->
              Hash_Scope h = Hash_Scope other /\ Hash_Scope h <> Absent).
  { rewrite (Hash_Scope_arith h Hh), (Hash_Scope_arith other Ho).
    unfold EqualScope. rewrite !tag_of.
    pose proof (tag_range h Hh) as Th. pose proof (tag_range other Ho) as To.
    unfold maxUint8, Absent. change (Z.shiftl 1 8 - 1) with 255.
    destruct (Z.gtb_spec (h / 2 ^ 24) 255); [lia |].
    destruct (Z.gtb_spec (other / 2 ^ 24) 255); [lia |].
    cbn [orb].
    destruct (Z.leb_spec (h / 2 ^ 24) 0);
      [split; [discriminate | lia] |].
    destruct (Z.leb_spec (other / 2 ^ 24) 0);
      [split; [discriminate | lia] |].
    rewrite Z.eqb_eq. lia. }
  assert (F : Hash_Scope h = Absent \/ Hash_Scope other = Absent ->
              EqualScope h other = false).
  { intros Habs. apply not_true_is_false. intros Eq.
    apply E in Eq. destruct Eq as [E1 E2].
    destruct Habs as [Ha | Ha]; congruence. }
  split; [exact F | split; [| exact E]].
  intros Ha.
  rewrite (Hash_Scope_arith h Hh) in Ha.
  unfold EqualScope. rewrite !tag_of, Ha. reflexivity.
Qed.

Lemma EqualScope_by_scope_part_witness :
  (Hash_Scope 5 = Absent \/ Hash_Scope (NewHash Website 5) = Absent ->
   EqualScope 5 (NewHash Website 5) = false)
  /\ (Hash_Scope 5 = Absent -> EqualScope 5 5 = false)
  /\ (EqualScope 5 (NewHash Website 5) = true <->
      Hash_Scope 5 = Hash_Scope (NewHash Website 5) /\ Hash_Scope 5 <> Absent).
Proof.
  apply (EqualScope_by_scope_part 5 (NewHash Website 5)).
  - vm_compute. split; [discriminate | reflexivity].
  - vm_compute. split; [discriminate | reflexivity].
Defined.

End HashClaims.

(** ** The Scoped resolver: fallback, short circuit, restriction *)

Section ResolverClaims.
Import scope errors cfgpath.

Context (float64 Time : Type) (zeroFloat64 : float64) (zeroTime : Time).
Context (New : Route -> Path + error).

Local Abbreviation Scoped := (config.Scoped float64 Time).
Local Abbreviation traverse := (config.traverse New).
Local Abbreviation access := (config.access zeroFloat64 zeroTime New).
Local Abbreviation zeroOf := (config.zeroOf zeroFloat64 zeroTime).
Local Abbreviation rootGet := config.rootGet.
Local Abbreviation isAllowedStore := config.isAllowedStore.
Local Abbreviation isAllowedWebsite := config.isAllowedWebsite.
Local Abbreviation effectiveScope := config.effectiveScope.
Local Abbreviation StoreID := config.StoreID.
Local Abbreviation WebsiteID := config.WebsiteID.
Local Abbreviation Root := config.Root.

(** Each accessor is the shared body at its own Getter method and zero
    value. *)
Lemma access_traverse (a : config.Accessor) (ss : Scoped) (r : Route)
    (s : list Scope) :
  exists format,
    access a ss r s = traverse (rootGet a (Root ss)) (zeroOf a) format ss r s.
Proof. destruct a; eexists; reflexivity. Qed.

Lemma found_NotFound (err : option error) :
  IsNotFound err = true -> config.found err = false.
Proof.
  unfold config.found. intros H. rewrite H.
  destruct err; [reflexivity | discriminate H].
Qed.

Lemma found_otherwise (err : option error) :
  IsNotFound err = false -> config.found err = true.
Proof. unfold config.found. intros ->. reflexivity. Qed.

(** A guarded attempt that meets a NotFound error, or is not allowed,
    does not return. *)
Lemma attempt_falls_through {V : Type} (allowed : bool) (bind : Path -> Path)
    (get : Path -> V * option error) (p : Path) :
  (allowed = true -> IsNotFound (snd (get (bind p))) = true) ->
  config.attempt allowed bind get p
  = (if allowed then bind p else p, if allowed then [bind p] else [], None).
Proof.
  intros H. unfold config.attempt. destruct allowed; [| reflexivity].
  specialize (H eq_refl).
  destruct (get (bind p)) as [v err]. cbn [snd] in H.
  now rewrite (found_NotFound err H).
Qed.

Lemma attempt_returns {V : Type} (bind : Path -> Path)
    (get : Path -> V * option error) (p : Path) :
  IsNotFound (snd (get (bind p))) = false ->
  config.attempt true bind get p
  = (bind p, [bind p],
     Some (fst (get (bind p)), ScopeHash (bind p), snd (get (bind p)))).
Proof.
  intros H. unfold config.attempt.
  destruct (get (bind p)) as [v err]. cbn [fst snd] in *.
  now rewrite (found_otherwise err H).
Qed.

(** The hashes [NewHash] can make for a given scope above Default. *)
Lemma NewHash_above_cases (s : Scope) (id : Z) :
  Website <= s < 2 ^ 8 ->
  NewHash s id = 0 \/ (0 <= id <= MaxStoreID /\ NewHash s id = s * 2 ^ 24 + id).
Proof.
  intros Hs.
  destruct (Z_le_gt_dec id MaxStoreID) as [Hle | Hgt].
  - destruct (Z_lt_ge_dec id 0) as [Hneg | Hpos].
    + left. unfold NewHash, Website, Default in *.
      destruct (Z.gtb_spec s 1); [| lia].
      destruct (Z.ltb_spec id 0); [| lia].
      now rewrite orb_true_r.
    + right. split; [lia |]. apply NewHash_arith; lia.
  - left. unfold NewHash.
    destruct (Z.gtb_spec id MaxStoreID); [reflexivity | lia].
Qed.

Lemma DefaultHash_not_scoped (s : Scope) (id : Z) :
  Website <= s < 2 ^ 8 -> DefaultHash <> NewHash s id.
Proof.
  intros Hs. rewrite DefaultHash_value.
  destruct (NewHash_above_cases s id Hs) as [-> | [Hid ->]].
  - lia.
  - unfold Website in Hs. change MaxStoreID with 8388607 in Hid. lia.
Qed.

(** C1. For a well-formed route and a resolver with StoreID > 0 and
    WebsiteID > 0: if the root Getter reports a NotFound error at the
    Store-bound path and at the Website-bound path and holds a value at
    Default scope, each typed accessor returns that value with the
    constant [DefaultHash] (scope Default, ID 0), which is no Store and
    no Website hash, and no error. *)
Theorem fallback_to_default (a : config.Accessor) (ss : Scoped) (r : Route)
    (s : list Scope) (p : Path) (v : config.valueOf float64 Time a) :
  New r = inl p ->
  0 < StoreID ss -> 0 < WebsiteID ss ->
  IsNotFound (snd (rootGet a (Root ss) (BindStore p (StoreID ss)))) = true ->
  IsNotFound (snd (rootGet a (Root ss) (BindWebsite p (WebsiteID ss)))) = true ->
  rootGet a (Root ss) (setScopeHash p DefaultHash) = (v, None) ->
  fst (access a ss r s) = (v, DefaultHash, None)
  /\ DefaultHash = NewHash Default 0
  /\ Unpack DefaultHash = (Default, 0)
  /\ (forall id, DefaultHash <> NewHash Store id
                 /\ DefaultHash <> NewHash Website id).
Proof.
  intros HNew _ _ HS HW HD.
  split; [| split; [reflexivity | split; [reflexivity |]]].
  - destruct (access_traverse a ss r s) as [format ->].
    unfold config.traverse. rewrite HNew.
    rewrite attempt_falls_through by (intros _; exact HS).
    rewrite attempt_falls_through
      by (intros _; destruct (isAllowedStore ss s); exact HW).
    replace (setScopeHash _ DefaultHash) with (setScopeHash p DefaultHash)
      by (destruct (isAllowedStore ss s), (isAllowedWebsite ss s); reflexivity).
    rewrite HD. reflexivity.
  - intros id. split; apply DefaultHash_not_scoped; unfold Website, Store; lia.
Qed.

(** C2. When the Store attempt is permitted (StoreID > 0 and the
    effective scope passes the store permission check) and the root
    Getter answers the Store-bound path with an error that is not a
    NotFound error, every typed accessor returns the Getter's value and
    that error with the Store hash of StoreID, and the root Getter is
    asked for the Store-bound path only: neither the Website nor the
    Default scope is consulted. *)
Theorem short_circuit_at_store (a : config.Accessor) (ss : Scoped) (r : Route)
    (s : list Scope) (p : Path) (v : config.valueOf float64 Time a) (e : error) :
  New r = inl p ->
  0 < StoreID ss ->
  Has PermStoreReverse (effectiveScope ss s) = true ->
  rootGet a (Root ss) (BindStore p (StoreID ss)) = (v, Some e) ->
  IsNotFound (Some e) = false ->
  access a ss r s
  = ((v, NewHash Store (StoreID ss), Some e), [BindStore p (StoreID ss)])
  /\ (StoreID ss <= MaxStoreID ->
      Unpack (NewHash Store (StoreID ss)) = (Store, StoreID ss)).
Proof.
  intros HNew Hid Hperm Hget Hnf. split.
  - destruct (access_traverse a ss r s) as [format ->].
    unfold config.traverse. rewrite HNew.
    assert (Hallow : isAllowedStore ss s = true).
    { unfold config.isAllowedStore. rewrite Hperm.
      destruct (Z.gtb_spec (StoreID ss) 0); [reflexivity | lia]. }
    rewrite Hallow.
    rewrite attempt_returns by (rewrite Hget; exact Hnf).
    rewrite Hget. reflexivity.
  - intros Hmax. apply Unpack_NewHash_above; unfold Website, Store; lia.
Qed.

(** C3. On a store-scoped resolver (StoreID > 0) the restriction
    Website as the variadic scope argument skips the Store attempt:
    resolution goes to the Website attempt when WebsiteID > 0 and then
    to Default, and the root Getter is never asked for a Store-bound
    path. *)
Theorem restriction_website_skips_store (a : config.Accessor) (ss : Scoped)
    (r : Route) (p : Path) :
  New r = inl p ->
  0 < StoreID ss ->
  let get := rootGet a (Root ss) in
  let pW := BindWebsite p (WebsiteID ss) in
  let pD := setScopeHash p DefaultHash in
  isAllowedStore ss [Website] = false
  /\ access a ss r [Website]
     = (if WebsiteID ss >? 0 then
          if config.found (snd (get pW))
          then ((fst (get pW), NewHash Website (WebsiteID ss), snd (get pW)), [pW])
          else ((fst (get pD), DefaultHash, snd (get pD)), [pW; pD])
        else ((fst (get pD), DefaultHash, snd (get pD)), [pD]))
  /\ Forall (fun q => fst (Unpack (ScopeHash q)) <> Store)
            (snd (access a ss r [Website])).
Proof.
  intros HNew Hid get pW pD.
  assert (HS : isAllowedStore ss [Website] = false).
  { unfold config.isAllowedStore. apply andb_false_r. }
  assert (HW : isAllowedWebsite ss [Website] = (WebsiteID ss >? 0)).
  { unfold config.isAllowedWebsite. apply andb_true_r. }
  assert (Heq : access a ss r [Website]
     = (if WebsiteID ss >? 0 then
          if config.found (snd (get pW))
          then ((fst (get pW), NewHash Website (WebsiteID ss), snd (get pW)), [pW])
          else ((fst (get pD), DefaultHash, snd (get pD)), [pW; pD])
        else ((fst (get pD), DefaultHash, snd (get pD)), [pD]))).
  { destruct (access_traverse a ss r [Website]) as [format ->].
    unfold config.traverse. rewrite HNew, HS, HW.
    unfold config.attempt at 1.
    destruct (WebsiteID ss >? 0).
    - unfold config.attempt. fold pW. fold get.
      destruct (get pW) as [v err]. cbn [fst snd].
      destruct (config.found err); [reflexivity |].
      change (setScopeHash pW DefaultHash) with pD.
      destruct (get pD) as [v' err']. reflexivity.
    - unfold config.attempt. fold pD. fold get.
      destruct (get pD) as [v' err']. reflexivity. }
  split; [exact HS | split; [exact Heq |]].
  rewrite Heq.
  assert (HpW : fst (Unpack (ScopeHash pW)) <> Store).
  { unfold pW, BindWebsite. cbn [ScopeHash].
    destruct (NewHash_above_cases Website (WebsiteID ss)) as [-> | [Hr Hn]];
      [unfold Website; lia | discriminate |].
    rewrite Unpack_NewHash_above by (unfold Website; lia). discriminate. }
  assert (HpD : fst (Unpack (ScopeHash pD)) <> Store) by discriminate.
  destruct (WebsiteID ss >? 0); [destruct (config.found _) |];
    cbn [snd]; repeat constructor; assumption.
Qed.

(** C4. For a malformed route, one the Path constructor rejects (with
    its NotValid error), every typed accessor returns at once the zero
    value of its type, hash 0 and the constructor's error wrapped, still
    a NotValid and no NotFound error; the root Getter is not asked at
    any scope. *)
Theorem malformed_route_fails_fast (a : config.Accessor) (ss : Scoped)
    (r : Route) (s : list Scope) (e : error) :
  New r = inr e ->
  IsNotValid (Some e) = true ->
  exists format,
    access a ss r s = ((zeroOf a, 0, Some (Wrapf e format [ArgRoute r])), [])
    /\ IsNotValid (Some (Wrapf e format [ArgRoute r])) = true
    /\ IsNotFound (Some (Wrapf e format [ArgRoute r])) = false.
Proof.
  intros HNew Hnv.
  destruct (access_traverse a ss r s) as [format Ha].
  exists format. rewrite Ha. unfold config.traverse. rewrite HNew.
  split; [reflexivity |].
  unfold IsNotValid, IsNotFound, hasBehaviour, Wrapf in *. cbn [Cause].
  destruct (Cause e) as [[] |]; try discriminate Hnv. split; reflexivity.
Qed.

End ResolverClaims.

(** ** The resolver on a small store *)

Section ResolverExamples.
Import scope errors cfgpath.

Import cfgmock.

Lemma fallback_to_default_witness :
  fst (config.access 0 0 cfgmock.New config.AString atDefault route [])
  = ("http://cs.io"%string, DefaultHash, None)
  /\ DefaultHash = NewHash Default 0
  /\ Unpack DefaultHash = (Default, 0)
  /\ (forall id, DefaultHash <> NewHash Store id
                 /\ DefaultHash <> NewHash Website id).
Proof.
  apply (fallback_to_default Z Z 0 0 cfgmock.New config.AString atDefault
           route [] unbound "http://cs.io"%string).
  - reflexivity.
  - reflexivity.
  - reflexivity.
  - reflexivity.
  - reflexivity.
  - reflexivity.
Defined.

Lemma short_circuit_at_store_witness :
  config.access 0 0 cfgmock.New config.AString brokenAtStore route []
  = ((EmptyString, NewHash Store 1, Some errFatal), [BindStore unbound 1])
  /\ (1 <= MaxStoreID -> Unpack (NewHash Store 1) = (Store, 1)).
Proof.
  apply (short_circuit_at_store Z Z 0 0 cfgmock.New config.AString brokenAtStore
           route [] unbound EmptyString errFatal).
  - reflexivity.
  - reflexivity.
  - reflexivity.
  - reflexivity.
  - reflexivity.
Defined.

Lemma restriction_website_skips_store_witness :
  config.isAllowedStore brokenAtStore [Website] = false
  /\ config.access 0 0 cfgmock.New config.AString brokenAtStore route [Website]
     = (("http://cs.io"%string, DefaultHash, None),
        [BindWebsite unbound 1; setScopeHash unbound DefaultHash])
  /\ Forall (fun q => fst (Unpack (ScopeHash q)) <> Store)
            (snd (config.access 0 0 cfgmock.New config.AString brokenAtStore
                    route [Website])).
Proof.
  apply (restriction_website_skips_store Z Z 0 0 cfgmock.New config.AString
           brokenAtStore route unbound).
  - reflexivity.
  - reflexivity.
Defined.

Lemma malformed_route_fails_fast_witness :
  exists format,
    config.access 0 0 cfgmock.New config.AString atDefault "catalog"%string []
    = ((EmptyString, 0,
        Some (Wrapf (NewNotValidf "[cfgpath] Incorrect Path: %q"
                       [ArgRoute "catalog"%string])
                    format [ArgRoute "catalog"%string])), [])
    /\ IsNotValid (Some (Wrapf (NewNotValidf "[cfgpath] Incorrect Path: %q"
                                  [ArgRoute "catalog"%string])
                               format [ArgRoute "catalog"%string])) = true
    /\ IsNotFound (Some (Wrapf (NewNotValidf "[cfgpath] Incorrect Path: %q"
                                  [ArgRoute "catalog"%string])
                               format [ArgRoute "catalog"%string])) = false.
Proof.
  apply (malformed_route_fails_fast Z Z 0 0 cfgmock.New config.AString atDefault
           "catalog"%string []).
  - reflexivity.
  - reflexivity.
Defined.

End ResolverExamples.

(** ** The scoped-config cache: fast path, fallback, precedence *)

Section CacheClaims.
Import scope errors.

Context (Logger Fields : Type) (zeroFields : Fields).
Context (IsValid : ctxcors.scopedConfig Logger Fields -> bool).
Context (ScopedGetter : Type) (sgScope : ScopedGetter -> Scope * Z).
Context (Option : Type).
Context (applyOption : Option ->
                       ctxcors.Service Logger Fields ScopedGetter Option ->
                       ctxcors.Service Logger Fields ScopedGetter Option).
Context (errConfigNotFound : error).
Context (errScopedConfigNotValid errServiceUnsupportedScope : string).

Local Abbreviation Service := (ctxcors.Service Logger Fields ScopedGetter Option).
Local Abbreviation scopedConfig := (ctxcors.scopedConfig Logger Fields).
Local Abbreviation hashOf := (ctxcors.hashOf sgScope).
Local Abbreviation Options := (ctxcors.Options applyOption errServiceUnsupportedScope).
Local Abbreviation getScopedConfig := (ctxcors.getScopedConfig zeroFields).
Local Abbreviation getConfigByScopeID :=
  (ctxcors.getConfigByScopeID zeroFields IsValid errConfigNotFound
     errScopedConfigNotValid).
Local Abbreviation configByScopedGetter :=
  (ctxcors.configByScopedGetter zeroFields IsValid sgScope applyOption
     errConfigNotFound errScopedConfigNotValid errServiceUnsupportedScope).

(** A miss in the per-hash map. *)
Lemma getConfigByScopeID_miss (fallback : bool) (h : Hash) (s : Service) :
  ctxcors.scopeCache s !! h = None ->
  getConfigByScopeID fallback h s
  = (if fallback then
       if IsValid (ctxcors.defaultScopeCache s)
       then ctxcors.Return (ctxcors.defaultScopeCache s) None
       else match ctxcors.log (ctxcors.defaultScopeCache s) with
            | None => ctxcors.Panic
            | Some _ => ctxcors.Return (ctxcors.defaultScopeCache s)
                          (Some errConfigNotFound)
            end
     else ctxcors.Return (ctxcors.emptyConfig zeroFields) (Some errConfigNotFound),
     s, [ctxcors.MapLookup h]).
Proof.
  intros Hmiss. unfold ctxcors.getConfigByScopeID, ctxcors.getScopedConfig.
  rewrite Hmiss. destruct fallback; [| reflexivity].
  destruct (IsValid (ctxcors.defaultScopeCache s)); cbn [negb]; [reflexivity |].
  destruct (ctxcors.log (ctxcors.defaultScopeCache s)); reflexivity.
Qed.

(** A hit on a valid entry, for either value of the fallback flag. *)
Lemma getConfigByScopeID_hit (fallback : bool) (h : Hash) (s : Service) :
  is_Some (ctxcors.scopeCache s !! h) ->
  IsValid (fst (fst (getScopedConfig h s))) = true ->
  getConfigByScopeID fallback h s
  = (ctxcors.Return (fst (fst (getScopedConfig h s))) None,
     snd (getScopedConfig h s), [ctxcors.MapLookup h]).
Proof.
  intros [sc Hhit] Hvalid. revert Hvalid.
  unfold ctxcors.getConfigByScopeID, ctxcors.getScopedConfig.
  rewrite Hhit.
  destruct (ctxcors.log sc); cbn [fst snd]; intros ->; reflexivity.
Qed.

(** C9, amended.  In [configByScopedGetter], for every cache state and
    every supplied scoped getter: whenever no scope option function is
    configured or no scoped getter is supplied, the hash computed from
    the getter (DefaultHash when none is supplied) equals DefaultHash
    and the default entry is valid, the default entry is returned at
    once with no error, the service is left as it is, and neither the
    per-hash map is looked up nor the option function invoked. *)
Theorem fast_path_default (sg : option ScopedGetter) (s : Service) :
  ctxcors.scpOptionFnc s = None \/ sg = None ->
  hashOf sg = DefaultHash ->
  IsValid (ctxcors.defaultScopeCache s) = true ->
  configByScopedGetter sg s
  = (ctxcors.Return (ctxcors.defaultScopeCache s) None, s, []).
Proof.
  intros Hguard Hh Hvalid. unfold ctxcors.configByScopedGetter.
  rewrite Hh, Hvalid, Z.eqb_refl.
  destruct Hguard as [-> | ->]; [reflexivity |].
  now rewrite orb_true_r.
Qed.

(** C10, amended.  In a cache where only the default entry is
    populated and valid, and still is after the scope option function,
    if one is configured, has run without error, a lookup for any hash
    falls back to the default entry and returns it without error.  Once
    an entry for a specific scope is populated and valid, lookups for
    its exact hash return that entry (with the default logger, if it
    had none) in preference to the default entry, whatever the scope
    option function and the default entry are. *)
Theorem fallback_then_precedence (sg : option ScopedGetter) (s s' : Service)
    (sc : scopedConfig) :
  let h := hashOf sg in
  let populated := ctxcors.setScopeCache s (<[h := sc]> (ctxcors.scopeCache s)) in
  (ctxcors.scopeCache s !! h = None ->
   IsValid (ctxcors.defaultScopeCache s) = true ->
   match ctxcors.scpOptionFnc s with
   | None => s' = s
   | Some fnc =>
       Options (fnc sg) s = (None, s')
       /\ ctxcors.scopeCache s' !! h = None
       /\ IsValid (ctxcors.defaultScopeCache s') = true
   end ->
   fst (fst (configByScopedGetter sg s))
   = ctxcors.Return
       (ctxcors.defaultScopeCache (if ctxcors.isNone sg then s else s')) None)
  /\ (h <> DefaultHash ->
      IsValid (fst (fst (getScopedConfig h populated))) = true ->
      fst (fst (configByScopedGetter sg populated))
      = ctxcors.Return (fst (fst (getScopedConfig h populated))) None
      /\ ctxcors.fields (fst (fst (getScopedConfig h populated)))
         = ctxcors.fields sc
      /\ (is_Some (ctxcors.log sc) ->
          fst (fst (getScopedConfig h populated)) = sc)).
Proof.
  intros h populated. split.
  - intros Hmiss Hvalid Hhook.
    unfold ctxcors.configByScopedGetter. fold h. rewrite Hvalid, andb_true_r.
    destruct (ctxcors.scpOptionFnc s) as [fnc |] eqn:Efnc.
    + destruct Hhook as (Hopts & Hmiss' & Hvalid').
      destruct sg as [g |].
      * cbn [ctxcors.isNone orb andb].
        rewrite (getConfigByScopeID_miss false h s Hmiss).
        rewrite Efnc, Hopts.
        rewrite (getConfigByScopeID_miss true h s' Hmiss'), Hvalid'.
        reflexivity.
      * cbn [ctxcors.isNone orb andb].
        unfold h. cbn [ctxcors.hashOf]. rewrite Z.eqb_refl. reflexivity.
    + subst s'. cbn [ctxcors.isNone orb andb].
      replace (ctxcors.defaultScopeCache (if ctxcors.isNone sg then s else s))
        with (ctxcors.defaultScopeCache s) by (destruct (ctxcors.isNone sg); reflexivity).
      destruct (h =? DefaultHash); [reflexivity |].
      rewrite (getConfigByScopeID_miss false h s Hmiss).
      rewrite Efnc.
      rewrite (getConfigByScopeID_miss true h s Hmiss), Hvalid.
      reflexivity.
  - intros Hne Hvalid'.
    assert (Hhit : ctxcors.scopeCache populated !! h = Some sc).
    { unfold populated. cbn [ctxcors.setScopeCache ctxcors.scopeCache].
      apply lookup_insert_eq. }
    split; [| split].
    + unfold ctxcors.configByScopedGetter. fold h.
      destruct (Z.eqb_spec h DefaultHash) as [Heq | _]; [contradiction |].
      rewrite andb_false_r. cbn [andb].
      rewrite (getConfigByScopeID_hit false h populated);
        [reflexivity | rewrite Hhit; eauto | exact Hvalid'].
    + unfold ctxcors.getScopedConfig. rewrite Hhit.
      destruct (ctxcors.log sc); reflexivity.
    + intros [l Hl]. unfold ctxcors.getScopedConfig. rewrite Hhit, Hl.
      reflexivity.
Qed.

End CacheClaims.

(** ** The cache on a small service *)

Section CacheExamples.
Import scope errors corsmock.

(** C9, as the spec states it, fails: with a scope option function
    configured and a Default-scoped getter supplied, the hash is
    DefaultHash and the default entry is valid, and still the per-hash
    map is looked up and the option function invoked; here its option
    records an error, which is what the lookup returns. *)
Lemma fast_path_is_guarded :
  ctxcors.hashOf sgScope sgDefault = DefaultHash
  /\ IsValid (ctxcors.defaultScopeCache failing) = true
  /\ fst (fst (configByScopedGetter sgDefault failing))
     = ctxcors.Return (ctxcors.emptyConfig false)
         (Some (Wrap errBackend "[jwtauth] Options by scpOptionFnc"))
  /\ snd (configByScopedGetter sgDefault failing)
     = [ctxcors.MapLookup DefaultHash; ctxcors.OptionFncCall sgDefault].
Proof. vm_compute. repeat split. Qed.

Lemma fast_path_default_witness :
  configByScopedGetter sgDefault plain
  = (ctxcors.Return validConfig None, plain, []).
Proof.
  apply (fast_path_default unit bool false IsValid ScopedGetter sgScope Option
           applyOption errConfigNotFound
           "[ctxcors] ScopedConfig %s invalid"
           "[ctxcors] Service does not support this: %s"
           sgDefault plain).
  - left. reflexivity.
  - reflexivity.
  - reflexivity.
Defined.

(** C10, as the spec states it, fails: only the default entry is
    populated and valid, the scope option function fails to produce an
    entry for the hash of website 2 because its option records an
    error, and the lookup returns the empty configuration with that
    error instead of falling back to the default entry. *)
Lemma failing_hook_is_not_served_default :
  ctxcors.scopeCache failing = ∅
  /\ IsValid (ctxcors.defaultScopeCache failing) = true
  /\ ctxcors.scopeCache (snd (fst (configByScopedGetter sgWebsite2 failing)))
       !! NewHash Website 2 = None
  /\ fst (fst (configByScopedGetter sgWebsite2 failing))
     = ctxcors.Return (ctxcors.emptyConfig false)
         (Some (Wrap errBackend "[jwtauth] Options by scpOptionFnc"))
  /\ fst (fst (configByScopedGetter sgWebsite2 failing))
     <> ctxcors.Return (ctxcors.defaultScopeCache failing) None.
Proof.
  split; [reflexivity | split; [reflexivity | split; [| split]]].
  - vm_compute. reflexivity.
  - vm_compute. reflexivity.
  - vm_compute. discriminate.
Qed.

Lemma fallback_then_precedence_witness :
  fst (fst (configByScopedGetter sgWebsite2 idle))
  = ctxcors.Return validConfig None
  /\ fst (fst (configByScopedGetter sgWebsite2
                 (ctxcors.setScopeCache idle
                    (<[NewHash Website 2 := bareConfig]>
                       (ctxcors.scopeCache idle)))))
     = ctxcors.Return (ctxcors.mkScopedConfig (Some tt) true) None.
Proof.
  destruct (fallback_then_precedence unit bool false IsValid ScopedGetter sgScope
              Option applyOption errConfigNotFound
              "[ctxcors] ScopedConfig %s invalid"
              "[ctxcors] Service does not support this: %s"
              sgWebsite2 idle idle bareConfig) as [HA HB].
  split.
  - apply HA; [reflexivity | reflexivity | repeat split; reflexivity].
  - destruct HB as [HB _]; [discriminate | reflexivity | exact HB].
Defined.

End CacheExamples.

(** * Further properties *)

(** ** Hashes: shards, accessors, the error value, sorting *)

Section HashExtras.
Import scope.

(** X1. [Segment] is the hash modulo 256, and so an index into an array
    of [HashMaxSegments] shards, for every hash. *)
Theorem Segment_is_shard_index (h : Hash) :
  Segment h = h mod 256 /\ 0 <= Segment h < HashMaxSegments.
Proof.
  assert (E : Segment h = h mod 256).
  { unfold Segment, hashBitAnd, HashMaxSegments, uint8.
    change (256 - 1) with (Z.ones 8).
    rewrite Z.land_ones by lia.
    change (2 ^ 8) with 256. apply Z.mod_mod. lia. }
  split; [exact E |].
  rewrite E. unfold HashMaxSegments. apply Z.mod_pos_bound. lia.
Qed.

(** X2. The shard of a Website, Group or Store hash is decided by the
    low 8 bits of its id alone: [Segment (NewHash s id) = id mod 256]. *)
Theorem Segment_of_NewHash (s : Scope) (id : Z) :
  Website <= s < 2 ^ 8 -> 0 <= id <= MaxStoreID ->
  Segment (NewHash s id) = id mod 256.
Proof.
  intros Hs Hid.
  rewrite (proj1 (Segment_is_shard_index _)), (NewHash_arith s id Hs Hid).
  replace (s * 2 ^ 24 + id) with (id + (s * 65536) * 256) by lia.
  apply Z.mod_add. lia.
Qed.

Lemma Segment_of_NewHash_witness : Segment (NewHash Store 33) = 33 mod 256.
Proof.
  apply (Segment_of_NewHash Store 33).
  - unfold Website, Store. lia.
  - change MaxStoreID with 8388607. lia.
Defined.

(** X3. On a 32-bit hash [ID] is the id [Unpack] returns; when [ID] is
    not -1, [Unpack] returns [Scope()] and [ID()], and when it is -1,
    [Unpack] returns (Absent, -1) whatever [Scope()] says. *)
Theorem Unpack_agrees_with_Scope_and_ID (h : Hash) :
  is_uint32 h ->
  ID h = snd (Unpack h)
  /\ (ID h <> -1 -> Unpack h = (Hash_Scope h, ID h))
  /\ (ID h = -1 -> Unpack h = (Absent, -1)).
Proof.
  intros Hh.
  rewrite (Unpack_arith h Hh), ID_arith, (Hash_Scope_arith h Hh).
  destruct (split24 h) as [_ Hm].
  destruct (h mod 2 ^ 24 >? MaxStoreID); cbn [snd].
  - repeat split; [intros H; contradiction H; reflexivity].
  - repeat split. intros H. lia.
Qed.

Lemma Unpack_agrees_with_Scope_and_ID_witness :
  ID (NewHash Website 7) = snd (Unpack (NewHash Website 7))
  /\ (ID (NewHash Website 7) <> -1 ->
      Unpack (NewHash Website 7)
      = (Hash_Scope (NewHash Website 7), ID (NewHash Website 7)))
  /\ (ID (NewHash Website 7) = -1 ->
      Unpack (NewHash Website 7) = (Absent, -1)).
Proof.
  apply (Unpack_agrees_with_Scope_and_ID (NewHash Website 7)).
  vm_compute. split; [discriminate | reflexivity].
Defined.

(** X4. For a scope from Default upwards [NewHash] returns its error
    value 0 exactly when the id is above MaxStoreID, or negative with a
    scope above Default; a hash made without error is never 0. *)
Theorem NewHash_zero_iff_error (s : Scope) (id : Z) :
  Default <= s < 2 ^ 8 ->
  NewHash s id = 0 <-> MaxStoreID < id \/ (Default < s /\ id < 0).
Proof.
  intros Hs. unfold Default in Hs.
  destruct (Z_le_gt_dec id MaxStoreID) as [Hle | Hgt].
  - destruct (Z.eq_dec s 1) as [-> | Hne].
    + assert (E : NewHash 1 id = 2 ^ 24).
      { unfold NewHash, Default.
        destruct (Z.gtb_spec id MaxStoreID); [lia | reflexivity]. }
      rewrite E. unfold Default. split; [discriminate | lia].
    + destruct (NewHash_above_cases s id) as [E | [Hid E]];
        [unfold Website; lia | |].
      * split; [intros _ | intros _; exact E].
        destruct (Z_lt_ge_dec id 0) as [Hneg | Hpos];
          [right; unfold Default; lia |].
        exfalso. rewrite NewHash_arith in E by (unfold Website; lia). lia.
      * rewrite E. unfold Default. lia.
  - split; [intros _; left; lia | intros _].
    unfold NewHash. destruct (Z.gtb_spec id MaxStoreID); [reflexivity | lia].
Qed.

Lemma NewHash_zero_iff_error_witness :
  NewHash Store (-1) = 0 <-> MaxStoreID < -1 \/ (Default < Store /\ -1 < 0).
Proof.
  apply (NewHash_zero_iff_error Store (-1)).
  unfold Default, Store. lia.
Defined.

(** X5. Below Website the id is discarded: for every id up to
    MaxStoreID, negative ones included, [NewHash Default id] is
    [DefaultHash] and [NewHash Absent id] is 0. *)
Theorem NewHash_discards_id_below_Website (id : Z) :
  id <= MaxStoreID ->
  NewHash Default id = DefaultHash /\ NewHash Absent id = 0.
Proof.
  intros Hid. unfold NewHash, Default, Absent.
  destruct (Z.gtb_spec id MaxStoreID); [lia |]. split; reflexivity.
Qed.

Lemma NewHash_discards_id_below_Website_witness :
  NewHash Default (-5) = DefaultHash /\ NewHash Absent (-5) = 0.
Proof.
  apply (NewHash_discards_id_below_Website (-5)).
  change MaxStoreID with 8388607. lia.
Defined.

(** X6. [NewHash] is injective on the pairs it accepts above Default:
    two hashes made from scopes Website, Group or Store with ids in
    range are equal only if scope and id are. *)
Theorem NewHash_injective (s s' : Scope) (id id' : Z) :
  Website <= s < 2 ^ 8 -> Website <= s' < 2 ^ 8 ->
  0 <= id <= MaxStoreID -> 0 <= id' <= MaxStoreID ->
  NewHash s id = NewHash s' id' -> s = s' /\ id = id'.
Proof.
  intros Hs Hs' Hid Hid' E.
  pose proof (Unpack_NewHash_above s id Hs Hid) as U.
  rewrite E, (Unpack_NewHash_above s' id' Hs' Hid') in U.
  inversion U. auto.
Qed.

Lemma NewHash_injective_witness : Store = Store /\ 3 = 3.
Proof.
  apply (NewHash_injective Store Store 3 3);
    unfold Website, Store; change MaxStoreID with 8388607;
    first [lia | reflexivity].
Defined.

(** X7. On hashes made from scopes above Default with ids in range,
    [EqualScope] holds exactly when the two scopes are equal, whatever
    the ids. *)
Theorem EqualScope_of_NewHash (s s' : Scope) (id id' : Z) :
  Website <= s < 2 ^ 8 -> Website <= s' < 2 ^ 8 ->
  0 <= id <= MaxStoreID -> 0 <= id' <= MaxStoreID ->
  EqualScope (NewHash s id) (NewHash s' id') = true <-> s = s'.
Proof.
  intros Hs Hs' Hid Hid'.
  rewrite (NewHash_arith s id Hs Hid), (NewHash_arith s' id' Hs' Hid').
  change MaxStoreID with 8388607 in *. unfold Website in *.
  unfold EqualScope. rewrite !tag_of, !pack_div by lia.
  unfold maxUint8. change (Z.shiftl 1 8 - 1) with 255.
  destruct (Z.gtb_spec s 255); [lia |].
  destruct (Z.leb_spec s 0); [lia |].
  destruct (Z.gtb_spec s' 255); [lia |].
  destruct (Z.leb_spec s' 0); [lia |].
  cbn [orb]. apply Z.eqb_eq.
Qed.

Lemma EqualScope_of_NewHash_witness :
  EqualScope (NewHash Website 1) (NewHash Website 2) = true <-> Website = Website.
Proof.
  apply (EqualScope_of_NewHash Website Website 1 2);
    unfold Website; change MaxStoreID with 8388607; lia.
Defined.

(** The elements [Swap] leaves where they are, and the two it moves. *)
Lemma Swap_lookup (h h' : Hashes) (i j : Z) :
  Swap h i j = Some h' ->
  0 <= i /\ 0 <= j
  /\ length h' = length h
  /\ forall k : nat,
       h' !! k = h !! (if decide (k = Z.to_nat i) then Z.to_nat j
                       else if decide (k = Z.to_nat j) then Z.to_nat i
                       else k).
Proof.
  unfold Swap, index.
  destruct (Z.ltb_spec j 0) as [| Hj]; [discriminate |].
  destruct (h !! Z.to_nat j) as [hj |] eqn:Ej; [| discriminate].
  destruct (Z.ltb_spec i 0) as [| Hi]; [discriminate |].
  destruct (h !! Z.to_nat i) as [hi |] eqn:Ei; [| discriminate].
  intros [= <-].
  pose proof (lookup_lt_Some _ _ _ Ei) as Li.
  pose proof (lookup_lt_Some _ _ _ Ej) as Lj.
  unfold Hashes in *.
  split; [exact Hi | split; [exact Hj | split]].
  - now rewrite !length_insert.
  - intros k. rewrite !list_lookup_insert, !length_insert.
    repeat case_decide; subst; try congruence; try lia;
      destruct_and?; subst; congruence.
Qed.

(** X8. [Hashes.Swap] runs exactly when both indexes are in range; it
    then yields a permutation of the slice of the same length, with the
    elements at [i] and [j] exchanged, and swapping again restores the
    slice. *)
Theorem Swap_is_transposition (h : Hashes) (i j : Z) :
  (is_Some (Swap h i j) <-> (0 <= i < Len h /\ 0 <= j < Len h))
  /\ (forall h', Swap h i j = Some h' ->
        h' ≡ₚ h /\ Len h' = Len h
        /\ index h' i = index h j /\ index h' j = index h i
        /\ Swap h' i j = Some h).
Proof.
  split.
  - unfold Swap, index, Len, Hashes in *. split.
    + intros [h' E].
      destruct (Z.ltb_spec j 0) as [| Hj]; [discriminate |].
      destruct (h !! Z.to_nat j) as [hj |] eqn:Ej; [| discriminate].
      destruct (Z.ltb_spec i 0) as [| Hi]; [discriminate |].
      destruct (h !! Z.to_nat i) as [hi |] eqn:Ei; [| discriminate].
      apply lookup_lt_Some in Ei, Ej. lia.
    + intros [Hi Hj].
      destruct (Z.ltb_spec j 0); [lia |].
      destruct (Z.ltb_spec i 0); [lia |].
      destruct (lookup_lt_is_Some_2 h (Z.to_nat j)) as [hj ->]; [lia |].
      destruct (lookup_lt_is_Some_2 h (Z.to_nat i)) as [hi ->]; [lia |].
      eauto.
  - intros h' E.
    destruct (Swap_lookup h h' i j E) as (Hi & Hj & Hlen & Hk).
    assert (Hi' : index h' i = index h j).
    { unfold index. destruct (Z.ltb_spec i 0); [lia |].
      destruct (Z.ltb_spec j 0); [lia |].
      rewrite Hk. now rewrite decide_True. }
    assert (Hj' : index h' j = index h i).
    { unfold index. destruct (Z.ltb_spec i 0); [lia |].
      destruct (Z.ltb_spec j 0); [lia |].
      rewrite Hk. case_decide as D; [now rewrite D |]. now rewrite decide_True. }
    split; [| split; [unfold Len; now rewrite Hlen | split; [exact Hi' | split; [exact Hj' |]]]].
    + apply Permutation_inj. split; [exact Hlen |].
      exists (fun k => if decide (k = Z.to_nat i) then Z.to_nat j
                       else if decide (k = Z.to_nat j) then Z.to_nat i else k).
      split; [| exact Hk].
      intros x y. repeat case_decide; subst; congruence.
    + assert (is_Some (Swap h i j)) as Hs by eauto.
      pose proof E as E0.
      unfold Swap in E |- *. rewrite Hi', Hj'.
      destruct (index h i) as [hi |] eqn:Ei; [| destruct (index h j); discriminate].
      destruct (index h j) as [hj |] eqn:Ej; [| discriminate].
      injection E as <-. f_equal.
      unfold index in Ei, Ej. unfold Hashes in *.
      destruct (Z.ltb_spec i 0); [discriminate |].
      destruct (Z.ltb_spec j 0); [discriminate |].
      apply list_eq. intros k.
      rewrite !list_lookup_insert, !length_insert.
      apply lookup_lt_Some in Ei as Li. apply lookup_lt_Some in Ej as Lj.
      repeat case_decide; subst; try congruence; try lia;
        destruct_and?; subst; congruence.
Qed.

(** X9. [Hashes.Less] compares the raw 32-bit values and is a strict
    order on the indexes in range: never [Less i i], and from [Less i j]
    and [Less j k] follows [Less i k]; out of range it panics. *)
Theorem Less_strict_order (h : Hashes) (i j k : Z) :
  (is_Some (Less h i j) <-> (0 <= i < Len h /\ 0 <= j < Len h))
  /\ Less h i i <> Some true
  /\ (Less h i j = Some true -> Less h j i = Some false)
  /\ (Less h i j = Some true -> Less h j k = Some true ->
      Less h i k = Some true).
Proof.
  unfold Less, index, Len, Hashes in *.
  split; [split | split; [| split]].
  - intros [b E].
    destruct (Z.ltb_spec i 0) as [| Hi]; [discriminate |].
    destruct (h !! Z.to_nat i) as [hi |] eqn:Ei; [| discriminate].
    destruct (Z.ltb_spec j 0) as [| Hj]; [discriminate |].
    destruct (h !! Z.to_nat j) as [hj |] eqn:Ej; [| discriminate].
    apply lookup_lt_Some in Ei, Ej. lia.
  - intros [Hi Hj].
    destruct (Z.ltb_spec i 0); [lia |].
    destruct (Z.ltb_spec j 0); [lia |].
    destruct (lookup_lt_is_Some_2 h (Z.to_nat i)) as [hi ->]; [lia |].
    destruct (lookup_lt_is_Some_2 h (Z.to_nat j)) as [hj ->]; [lia |].
    eauto.
  - destruct (i <? 0); [discriminate |].
    destruct (h !! Z.to_nat i) as [hi |]; [| discriminate].
    rewrite Z.ltb_irrefl. discriminate.
  - destruct (i <? 0); [discriminate |].
    destruct (h !! Z.to_nat i) as [hi |]; [| discriminate].
    destruct (j <? 0); [discriminate |].
    destruct (h !! Z.to_nat j) as [hj |]; [| discriminate].
    intros [= E]. f_equal. apply Z.ltb_lt in E. apply Z.ltb_ge. lia.
  - destruct (i <? 0); [discriminate |].
    destruct (h !! Z.to_nat i) as [hi |]; [| discriminate].
    destruct (j <? 0); [discriminate |].
    destruct (h !! Z.to_nat j) as [hj |]; [| discriminate].
    destruct (k <? 0); [discriminate |].
    destruct (h !! Z.to_nat k) as [hk |]; [| discriminate].
    intros [= E1] [= E2]. f_equal.
    apply Z.ltb_lt in E1, E2. apply Z.ltb_lt. lia.
Qed.

End HashExtras.

(** ** The Scoped resolver: what is asked, in which order, and what is
    returned *)

Section ResolverExtras.
Import scope errors cfgpath.

Context (float64 Time : Type) (zeroFloat64 : float64) (zeroTime : Time).
Context (New : Route -> Path + error).

Local Abbreviation Scoped := (config.Scoped float64 Time).
Local Abbreviation traverse := (config.traverse New).
Local Abbreviation access := (config.access zeroFloat64 zeroTime New).
Local Abbreviation rootGet := config.rootGet.
Local Abbreviation isAllowedStore := config.isAllowedStore.
Local Abbreviation isAllowedWebsite := config.isAllowedWebsite.
Local Abbreviation effectiveScope := config.effectiveScope.
Local Abbreviation StoreID := config.StoreID.
Local Abbreviation WebsiteID := config.WebsiteID.
Local Abbreviation Root := config.Root.

Lemma found_spec (err : option error) :
  config.found err = negb (IsNotFound err).
Proof.
  unfold config.found. destruct err as [e |]; cbn [isNil].
  - apply orb_false_r.
  - reflexivity.
Qed.

(** The shared body on a well-formed route, with the two guards and the
    two tests spelled out. *)
Lemma traverse_wellformed {V : Type} (get : Path -> V * option error) (zero : V)
    (format : string) (ss : Scoped) (r : Route) (s : list Scope) (p : Path) :
  New r = inl p ->
  let pS := BindStore p (StoreID ss) in
  let pW := BindWebsite p (WebsiteID ss) in
  let pD := setScopeHash p DefaultHash in
  let answer q := (fst (get q), ScopeHash q, snd (get q)) in
  traverse get zero format ss r s
  = if isAllowedStore ss s && negb (IsNotFound (snd (get pS)))
    then (answer pS, [pS])
    else
      let callsS := if isAllowedStore ss s then [pS] else [] in
      if isAllowedWebsite ss s && negb (IsNotFound (snd (get pW)))
      then (answer pW, callsS ++ [pW])
      else
        let callsW := if isAllowedWebsite ss s then [pW] else [] in
        (answer pD, callsS ++ callsW ++ [pD]).
Proof.
  intros HNew pS pW pD answer. unfold config.traverse, config.attempt.
  rewrite HNew.
  destruct (isAllowedStore ss s); cbn [andb].
  - fold pS. destruct (get pS) as [v err] eqn:ES. rewrite found_spec.
    cbn [fst snd]. destruct (IsNotFound err); cbn [negb].
    + destruct (isAllowedWebsite ss s); cbn [andb].
      * change (BindWebsite pS (WebsiteID ss)) with pW.
        destruct (get pW) as [v' err'] eqn:EW. rewrite found_spec.
        cbn [fst snd]. destruct (IsNotFound err'); cbn [negb].
        -- change (setScopeHash pW DefaultHash) with pD.
           unfold answer. destruct (get pD). reflexivity.
        -- unfold answer. rewrite EW. reflexivity.
      * change (setScopeHash pS DefaultHash) with pD.
        unfold answer. destruct (get pD). reflexivity.
    + unfold answer. rewrite ES. reflexivity.
  - destruct (isAllowedWebsite ss s); cbn [andb].
    + fold pW. destruct (get pW) as [v' err'] eqn:EW. rewrite found_spec.
      cbn [fst snd]. destruct (IsNotFound err'); cbn [negb].
      * change (setScopeHash pW DefaultHash) with pD.
        unfold answer. destruct (get pD). reflexivity.
      * unfold answer. rewrite EW. reflexivity.
    + fold pD. unfold answer. destruct (get pD). reflexivity.
Qed.

(** X10. On a well-formed route an accessor asks the root Getter for
    one to three Paths and returns the Getter's answer at the last one,
    with that Path's hash; every Path asked before answered NotFound,
    and a NotFound error is returned only from the Default Path. *)
Theorem answer_is_last_call (a : config.Accessor) (ss : Scoped) (r : Route)
    (s : list Scope) (p : Path) :
  New r = inl p ->
  let get := rootGet a (Root ss) in
  exists front q,
    snd (access a ss r s) = front ++ [q]
    /\ fst (access a ss r s) = (fst (get q), ScopeHash q, snd (get q))
    /\ Forall (fun q' => IsNotFound (snd (get q')) = true) front
    /\ (length front <= 2)%nat
    /\ (IsNotFound (snd (get q)) = true -> ScopeHash q = DefaultHash).
Proof.
  intros HNew get.
  destruct (access_traverse float64 Time zeroFloat64 zeroTime New a ss r s)
    as [format ->].
  rewrite (traverse_wellformed _ _ _ ss r s p HNew). fold get.
  set (pS := BindStore p (StoreID ss)).
  set (pW := BindWebsite p (WebsiteID ss)).
  set (pD := setScopeHash p DefaultHash).
  destruct (isAllowedStore ss s);
    destruct (IsNotFound (snd (get pS))) eqn:ES; cbn [andb negb];
    try (exists [], pS; cbn [fst snd app length];
         repeat split; [constructor | lia | congruence]);
    destruct (isAllowedWebsite ss s);
    destruct (IsNotFound (snd (get pW))) eqn:EW; cbn [andb negb];
    cbn [fst snd app].
  all: first
    [ exists [pS; pW], pD; cbn [app length]; repeat split;
        [repeat constructor; assumption | lia]
    | exists [pS], pW; cbn [app length]; repeat split;
        [repeat constructor; assumption | lia | congruence]
    | exists [pS], pD; cbn [app length]; repeat split;
        [repeat constructor; assumption | lia]
    | exists [pW], pD; cbn [app length]; repeat split;
        [repeat constructor; assumption | lia]
    | exists [], pW; cbn [app length]; repeat split;
        [constructor | lia | congruence]
    | exists [], pD; cbn [app length]; repeat split;
        [constructor | lia] ].
Qed.

(** X11. The Paths an accessor asks for come in the fixed order Store,
    Website, Default, each at most once: their hashes are a sublist of
    [Store hash; Website hash; DefaultHash], and all carry the route of
    the Path the constructor made. *)
Theorem calls_follow_the_chain (a : config.Accessor) (ss : Scoped) (r : Route)
    (s : list Scope) (p : Path) :
  New r = inl p ->
  sublist (map ScopeHash (snd (access a ss r s)))
          [NewHash Store (StoreID ss); NewHash Website (WebsiteID ss);
           DefaultHash]
  /\ Forall (fun q => PathRoute q = PathRoute p) (snd (access a ss r s)).
Proof.
  intros HNew.
  destruct (access_traverse float64 Time zeroFloat64 zeroTime New a ss r s)
    as [format ->].
  rewrite (traverse_wellformed _ _ _ ss r s p HNew).
  destruct (isAllowedStore ss s), (isAllowedWebsite ss s);
    cbn [andb];
    repeat match goal with
           | |- context [negb ?b] => destruct b; cbn [negb]
           end;
    cbn [snd app map ScopeHash BindStore BindWebsite setScopeHash];
    (split; [eauto 8 using sublist_nil, sublist_skip, sublist_cons
            | repeat constructor]).
Qed.

(** X12. A resolver at the default scope (neither ID above 0) asks the
    root Getter for the Default Path only and returns its answer with
    [DefaultHash], whatever restriction is supplied. *)
Theorem default_scoped_asks_default_only (a : config.Accessor) (ss : Scoped)
    (r : Route) (s : list Scope) (p : Path) :
  New r = inl p ->
  StoreID ss <= 0 -> WebsiteID ss <= 0 ->
  let get := rootGet a (Root ss) in
  let pD := setScopeHash p DefaultHash in
  access a ss r s = ((fst (get pD), DefaultHash, snd (get pD)), [pD]).
Proof.
  intros HNew HS HW get pD.
  destruct (access_traverse float64 Time zeroFloat64 zeroTime New a ss r s)
    as [format ->].
  rewrite (traverse_wellformed _ _ _ ss r s p HNew).
  unfold config.isAllowedStore, config.isAllowedWebsite.
  destruct (Z.gtb_spec (StoreID ss) 0); [lia |].
  destruct (Z.gtb_spec (WebsiteID ss) 0); [lia |].
  reflexivity.
Qed.

(** The accessors read the restriction through [effectiveScope] only. *)
Lemma access_effectiveScope (a : config.Accessor) (ss : Scoped) (r : Route)
    (s s' : list Scope) :
  effectiveScope ss s = effectiveScope ss s' ->
  access a ss r s = access a ss r s'.
Proof.
  intros E.
  assert (HS : isAllowedStore ss s = isAllowedStore ss s')
    by (unfold config.isAllowedStore; now rewrite E).
  assert (HW : isAllowedWebsite ss s = isAllowedWebsite ss s')
    by (unfold config.isAllowedWebsite; now rewrite E).
  destruct a; cbn [config.access];
    unfold config.Byte, config.String, config.Bool, config.Float64,
      config.Int, config.Time_, config.traverse;
    rewrite HS, HW; reflexivity.
Qed.

(** X13. Of the variadic restriction only the first scope counts; a
    first scope of Absent counts as no restriction, and so does the
    resolver's own scope. *)
Theorem restriction_reads_first_scope (a : config.Accessor) (ss : Scoped)
    (r : Route) (s0 : Scope) (rest : list Scope) :
  access a ss r (s0 :: rest) = access a ss r [s0]
  /\ access a ss r (Absent :: rest) = access a ss r []
  /\ access a ss r (fst (config.Scope ss) :: rest) = access a ss r [].
Proof.
  split; [| split]; apply access_effectiveScope.
  - reflexivity.
  - reflexivity.
  - unfold config.effectiveScope, config.Scope, Absent.
    destruct (StoreID ss >? 0); [reflexivity |].
    destruct (WebsiteID ss >? 0); reflexivity.
Qed.

(** X14. When the Store attempt is not made or meets NotFound, and the
    Website attempt is permitted and answered with a value or with an
    error other than NotFound, the accessor returns that answer with the
    Website hash of WebsiteID, and the Default Path is not asked. *)
Theorem answer_at_website (a : config.Accessor) (ss : Scoped) (r : Route)
    (s : list Scope) (p : Path) :
  New r = inl p ->
  let get := rootGet a (Root ss) in
  let pS := BindStore p (StoreID ss) in
  let pW := BindWebsite p (WebsiteID ss) in
  (isAllowedStore ss s = true -> IsNotFound (snd (get pS)) = true) ->
  isAllowedWebsite ss s = true ->
  IsNotFound (snd (get pW)) = false ->
  access a ss r s
  = ((fst (get pW), NewHash Website (WebsiteID ss), snd (get pW)),
     (if isAllowedStore ss s then [pS] else []) ++ [pW]).
Proof.
  intros HNew get pS pW HS HW Hans.
  destruct (access_traverse float64 Time zeroFloat64 zeroTime New a ss r s)
    as [format ->].
  rewrite (traverse_wellformed _ _ _ ss r s p HNew).
  fold get pS pW. rewrite HW, Hans. cbn [andb negb].
  destruct (isAllowedStore ss s); cbn [andb]; [| reflexivity].
  rewrite (HS eq_refl). reflexivity.
Qed.

(** X15. For a resolver whose IDs are in range, the hash of [Parent()]
    is a valid parent of the hash of [Scope()]. *)
Theorem Parent_is_ValidParent_of_Scope (ss : Scoped) :
  0 <= WebsiteID ss <= MaxStoreID -> StoreID ss <= MaxStoreID ->
  ValidParent
    (NewHash (fst (config.Scope ss)) (snd (config.Scope ss)))
    (NewHash (fst (config.Parent ss)) (snd (config.Parent ss))) = true.
Proof.
  intros HW HS. apply ValidParent_unpack.
  unfold config.Scope, config.Parent.
  destruct (Z.gtb_spec (StoreID ss) 0) as [Hs | Hs]; cbn [fst snd].
  - right. right.
    rewrite (Unpack_NewHash_above Website (WebsiteID ss))
      by (unfold Website; lia).
    rewrite (Unpack_NewHash_above Store (StoreID ss))
      by (unfold Website, Store; lia).
    cbn [fst snd]. repeat split; lia.
  - destruct (Z.gtb_spec (WebsiteID ss) 0) as [Hw | Hw]; cbn [fst snd].
    + right. left.
      rewrite (Unpack_NewHash_above Website (WebsiteID ss))
        by (unfold Website; lia).
      cbn [fst snd]. repeat split. lia.
    + left. split; reflexivity.
Qed.

End ResolverExtras.

Section ResolverExtraExamples.
Import scope errors cfgpath cfgmock.

Lemma answer_is_last_call_witness :
  exists front q,
    snd (config.access 0 0 cfgmock.New config.AString atWebsite route [])
    = front ++ [q]
    /\ fst (config.access 0 0 cfgmock.New config.AString atWebsite route [])
       = (fst (config.rootGet config.AString (config.Root atWebsite) q),
          ScopeHash q,
          snd (config.rootGet config.AString (config.Root atWebsite) q))
    /\ Forall (fun q' =>
                 IsNotFound
                   (snd (config.rootGet config.AString (config.Root atWebsite) q'))
                 = true) front
    /\ (length front <= 2)%nat
    /\ (IsNotFound
          (snd (config.rootGet config.AString (config.Root atWebsite) q)) = true ->
        ScopeHash q = DefaultHash).
Proof.
  apply (answer_is_last_call Z Z 0 0 cfgmock.New config.AString atWebsite
           route [] unbound).
  reflexivity.
Defined.

Lemma calls_follow_the_chain_witness :
  sublist
    (map ScopeHash
       (snd (config.access 0 0 cfgmock.New config.AString atDefault route [])))
    [NewHash Store (config.StoreID atDefault);
     NewHash Website (config.WebsiteID atDefault); DefaultHash]
  /\ Forall (fun q => PathRoute q = PathRoute unbound)
            (snd (config.access 0 0 cfgmock.New config.AString atDefault route [])).
Proof.
  apply (calls_follow_the_chain Z Z 0 0 cfgmock.New config.AString atDefault
           route [] unbound).
  reflexivity.
Defined.

Lemma default_scoped_asks_default_only_witness :
  config.access 0 0 cfgmock.New config.AString defaultScoped route [Store]
  = (("http://cs.io"%string, DefaultHash, None),
     [setScopeHash unbound DefaultHash]).
Proof.
  apply (default_scoped_asks_default_only Z Z 0 0 cfgmock.New config.AString
           defaultScoped route [Store] unbound).
  - reflexivity.
  - discriminate.
  - discriminate.
Defined.

Lemma answer_at_website_witness :
  config.access 0 0 cfgmock.New config.AString atWebsite route []
  = (("http://cs.io"%string, NewHash Website 1, None),
     [BindStore unbound 1; BindWebsite unbound 1]).
Proof.
  apply (answer_at_website Z Z 0 0 cfgmock.New config.AString atWebsite
           route [] unbound).
  - reflexivity.
  - intros _. reflexivity.
  - reflexivity.
  - reflexivity.
Defined.

Lemma Parent_is_ValidParent_of_Scope_witness :
  ValidParent
    (NewHash (fst (config.Scope elsewhere)) (snd (config.Scope elsewhere)))
    (NewHash (fst (config.Parent elsewhere)) (snd (config.Parent elsewhere)))
  = true.
Proof.
  apply (Parent_is_ValidParent_of_Scope Z Z elsewhere).
  - change MaxStoreID with 8388607. cbn. lia.
  - change MaxStoreID with 8388607. cbn. lia.
Defined.

End ResolverExtraExamples.

(** ** The CORS service: options, construction, the cache lookups *)

Section CacheExtras.
Import scope errors.

Context (Logger Fields : Type) (zeroFields : Fields).
Context (IsValid : ctxcors.scopedConfig Logger Fields -> bool).
Context (ScopedGetter : Type) (sgScope : ScopedGetter -> Scope * Z).
Context (Option : Type).
Context (applyOption : Option ->
                       ctxcors.Service Logger Fields ScopedGetter Option ->
                       ctxcors.Service Logger Fields ScopedGetter Option).
Context (errConfigNotFound : error).
Context (errScopedConfigNotValid errServiceUnsupportedScope : string).
Context (WithDefaultConfig : Scope -> Z -> Option).

Local Abbreviation Service := (ctxcors.Service Logger Fields ScopedGetter Option).
Local Abbreviation scopedConfig := (ctxcors.scopedConfig Logger Fields).
Local Abbreviation hashOf := (ctxcors.hashOf sgScope).
Local Abbreviation Options := (ctxcors.Options applyOption errServiceUnsupportedScope).
Local Abbreviation New :=
  (ctxcors.New zeroFields applyOption errServiceUnsupportedScope WithDefaultConfig).
Local Abbreviation getScopedConfig := (ctxcors.getScopedConfig zeroFields).
Local Abbreviation getConfigByScopeID :=
  (ctxcors.getConfigByScopeID zeroFields IsValid errConfigNotFound
     errScopedConfigNotValid).
Local Abbreviation configByScopedGetter :=
  (ctxcors.configByScopedGetter zeroFields IsValid sgScope applyOption
     errConfigNotFound errScopedConfigNotValid errServiceUnsupportedScope).
Local Abbreviation applyAll :=
  (foldl (fun (s : Service) (opt : Option) => applyOption opt s)).

(** The hashes the service supports as keys: none above the Website
    scope. *)
Local Abbreviation supported :=
  (fun s : Service =>
     forall h : Hash,
       is_Some (ctxcors.scopeCache s !! h) -> fst (Unpack h) <= Website).

Ltac conjuncts :=
  repeat match goal with
         | |- _ /\ _ => split
         end.

Lemma keys_of_cache (s : Service) (h : Hash) :
  In h (map_to_list (ctxcors.scopeCache s)).*1 <->
  is_Some (ctxcors.scopeCache s !! h).
Proof.
  rewrite <- list_elem_of_In, list_elem_of_fmap. split.
  - intros [[k sc] [-> Hin]]. apply elem_of_map_to_list in Hin.
    cbn [fst]. eauto.
  - intros [sc Hsc]. exists (h, sc). split; [reflexivity |].
    now apply elem_of_map_to_list.
Qed.

(** The scan of the keys in [Options]. *)
Lemma find_unsupported (s : Service) :
  match List.find (fun h => fst (Unpack h) >? Website)
                  (map_to_list (ctxcors.scopeCache s)).*1 with
  | Some h => is_Some (ctxcors.scopeCache s !! h) /\ Website < fst (Unpack h)
  | None => supported s
  end.
Proof.
  destruct (List.find _ _) as [h |] eqn:Ef.
  - apply List.find_some in Ef. destruct Ef as [Hin Hgt].
    apply keys_of_cache in Hin. apply Z.gtb_lt in Hgt. auto.
  - intros h Hin. apply keys_of_cache in Hin.
    pose proof (List.find_none _ _ Ef h Hin) as Hle. cbn beta in Hle.
    destruct (Z.gtb_spec (fst (Unpack h)) Website); [discriminate | lia].
Qed.


(** X16. [Options] applies the options in order and then succeeds
    exactly when no option error is recorded and no key of the cache is
    above the Website scope.  A recorded error is returned as it is;
    otherwise a failure is a NotSupported error. *)
Theorem Options_succeeds_iff (opts : list Option) (s : Service) :
  snd (Options opts s) = applyAll s opts
  /\ (fst (Options opts s) = None <->
      ctxcors.optionError (applyAll s opts) = None
      /\ supported (applyAll s opts))
  /\ (forall e, ctxcors.optionError (applyAll s opts) = Some e ->
                fst (Options opts s) = Some e)
  /\ (ctxcors.optionError (applyAll s opts) = None ->
      forall e, fst (Options opts s) = Some e -> IsNotSupported (Some e) = true).
Proof.
  unfold ctxcors.Options.
  set (s' := applyAll s opts).
  pose proof (find_unsupported s') as Hf.
  destruct (ctxcors.optionError s') as [e0 |] eqn:Eo.
  - cbn [fst snd].
    split; [reflexivity | split; [split | split]].
    + intros H; discriminate H.
    + intros [H _]; discriminate H.
    + intros e H; exact H.
    + intros H; discriminate H.
  - destruct (List.find _ _) as [h |]; cbn [fst snd].
    + destruct Hf as [Hin Hgt].
      split; [reflexivity | split; [split | split]].
      * intros H; discriminate H.
      * intros [_ Hsup]. specialize (Hsup h Hin). lia.
      * intros e H; discriminate H.
      * intros _ e [= <-]. reflexivity.
    + split; [reflexivity | split; [split | split]].
      * intros _. split; [reflexivity | exact Hf].
      * intros _. reflexivity.
      * intros e H; discriminate H.
      * intros _ e H. discriminate H.
Qed.


Lemma getScopedConfig_hit (h : Hash) (s : Service) (sc : scopedConfig) :
  ctxcors.scopeCache s !! h = Some sc ->
  getScopedConfig h s
  = match ctxcors.log sc with
    | None =>
        let sc' := ctxcors.mkScopedConfig
                     (ctxcors.log (ctxcors.defaultScopeCache s))
                     (ctxcors.fields sc) in
        ((sc', true),
         ctxcors.setScopeCache s (<[h := sc']> (ctxcors.scopeCache s)))
    | Some _ => ((sc, true), s)
    end.
Proof. intros H. unfold ctxcors.getScopedConfig. now rewrite H. Qed.

Lemma getScopedConfig_miss (h : Hash) (s : Service) :
  ctxcors.scopeCache s !! h = None ->
  getScopedConfig h s = ((ctxcors.emptyConfig zeroFields, false), s).
Proof. intros H. unfold ctxcors.getScopedConfig. now rewrite H. Qed.

(** What [getScopedConfig] leaves alone, what it stores, and that a
    second call finds the service settled. *)
Lemma getScopedConfig_keeps (h : Hash) (s : Service) :
  ctxcors.optionError (snd (getScopedConfig h s)) = ctxcors.optionError s
  /\ ctxcors.scpOptionFnc (snd (getScopedConfig h s)) = ctxcors.scpOptionFnc s
  /\ ctxcors.defaultScopeCache (snd (getScopedConfig h s))
     = ctxcors.defaultScopeCache s.
Proof.
  unfold ctxcors.getScopedConfig.
  destruct (ctxcors.scopeCache s !! h) as [sc |]; [| auto].
  destruct (ctxcors.log sc); auto.
Qed.

Lemma getScopedConfig_stored (h : Hash) (s : Service) :
  is_Some (ctxcors.scopeCache s !! h) ->
  snd (fst (getScopedConfig h s)) = true
  /\ ctxcors.scopeCache (snd (getScopedConfig h s)) !! h
     = Some (fst (fst (getScopedConfig h s))).
Proof.
  intros [sc E]. rewrite (getScopedConfig_hit h s sc E).
  destruct (ctxcors.log sc); cbn [fst snd]; split; try reflexivity.
  - exact E.
  - cbn [ctxcors.setScopeCache ctxcors.scopeCache]. apply lookup_insert_eq.
Qed.

Lemma getScopedConfig_idem (h : Hash) (s : Service) :
  getScopedConfig h (snd (getScopedConfig h s))
  = (fst (getScopedConfig h s), snd (getScopedConfig h s)).
Proof.
  destruct (ctxcors.scopeCache s !! h) as [sc |] eqn:E.
  - rewrite (getScopedConfig_hit h s sc E).
    destruct (ctxcors.log sc) as [l |] eqn:El; cbn [fst snd].
    + rewrite (getScopedConfig_hit h s sc E), El. reflexivity.
    + erewrite getScopedConfig_hit
        by (cbn [ctxcors.setScopeCache ctxcors.scopeCache];
            apply lookup_insert_eq).
      cbn [ctxcors.log ctxcors.fields ctxcors.setScopeCache
           ctxcors.scopeCache ctxcors.defaultScopeCache
           ctxcors.optionError ctxcors.scpOptionFnc].
      destruct (ctxcors.log (ctxcors.defaultScopeCache s)) as [l |] eqn:Ed;
        [reflexivity |].
      rewrite insert_insert_eq. reflexivity.
  - rewrite (getScopedConfig_miss h s E). cbn [fst snd].
    apply (getScopedConfig_miss h s E).
Qed.

(** X18. [getScopedConfig] reports a hit exactly for the keys of the
    map and changes nothing but the logger of the entry it returns:
    keys, settings of every entry, the other entries and the other
    fields of the service stay, the entry returned is the one stored
    afterwards, and a second call returns the same and changes
    nothing. *)
Theorem getScopedConfig_only_sets_logger (h : Hash) (s : Service) :
  let sc := fst (fst (getScopedConfig h s)) in
  let ok := snd (fst (getScopedConfig h s)) in
  let s' := snd (getScopedConfig h s) in
  (ok = true <-> is_Some (ctxcors.scopeCache s !! h))
  /\ dom (ctxcors.scopeCache s') = dom (ctxcors.scopeCache s)
  /\ (forall k : Hash, ctxcors.fields <$> (ctxcors.scopeCache s' !! k)
                = ctxcors.fields <$> (ctxcors.scopeCache s !! k))
  /\ (forall k : Hash, k <> h ->
                ctxcors.scopeCache s' !! k = ctxcors.scopeCache s !! k)
  /\ ctxcors.optionError s' = ctxcors.optionError s
  /\ ctxcors.scpOptionFnc s' = ctxcors.scpOptionFnc s
  /\ ctxcors.defaultScopeCache s' = ctxcors.defaultScopeCache s
  /\ (ok = true -> ctxcors.scopeCache s' !! h = Some sc)
  /\ getScopedConfig h s' = ((sc, ok), s').
Proof.
  intros sc ok s'. subst sc ok s'.
  destruct (getScopedConfig_keeps h s) as (Ke & Kf & Kd).
  pose proof (getScopedConfig_idem h s) as Hidem.
  conjuncts; try assumption.
  - split.
    + intros Hok. destruct (ctxcors.scopeCache s !! h) eqn:E; [eauto |].
      rewrite (getScopedConfig_miss h s E) in Hok. discriminate Hok.
    + intros Hhit. apply (getScopedConfig_stored h s Hhit).
  - destruct (ctxcors.scopeCache s !! h) as [sc |] eqn:E.
    + rewrite (getScopedConfig_hit h s sc E).
      destruct (ctxcors.log sc); [reflexivity |].
      cbn [snd ctxcors.setScopeCache ctxcors.scopeCache].
      apply dom_insert_lookup_L. eauto.
    + now rewrite (getScopedConfig_miss h s E).
  - intros k. destruct (ctxcors.scopeCache s !! h) as [sc |] eqn:E.
    + rewrite (getScopedConfig_hit h s sc E).
      destruct (ctxcors.log sc); [reflexivity |].
      cbn [snd ctxcors.setScopeCache ctxcors.scopeCache].
      destruct (decide (k = h)) as [Hk | Hne].
      * rewrite Hk, lookup_insert_eq, E. reflexivity.
      * rewrite lookup_insert_ne by congruence. reflexivity.
    + now rewrite (getScopedConfig_miss h s E).
  - intros k Hne. destruct (ctxcors.scopeCache s !! h) as [sc |] eqn:E.
    + rewrite (getScopedConfig_hit h s sc E).
      destruct (ctxcors.log sc); [reflexivity |].
      cbn [snd ctxcors.setScopeCache ctxcors.scopeCache].
      rewrite lookup_insert_ne by congruence. reflexivity.
    + now rewrite (getScopedConfig_miss h s E).
  - intros Hok.
    destruct (ctxcors.scopeCache s !! h) as [sc |] eqn:E.
    + apply getScopedConfig_stored. rewrite E. eauto.
    + rewrite (getScopedConfig_miss h s E) in Hok. discriminate Hok.
  - rewrite Hidem. now destruct (getScopedConfig h s) as [[sc ok] s1].
Qed.

(** Where [getConfigByScopeID] leaves the service, and what it does. *)
Lemma getConfigByScopeID_shape (fallback : bool) (h : Hash) (s : Service) :
  snd (fst (getConfigByScopeID fallback h s)) = snd (getScopedConfig h s)
  /\ snd (getConfigByScopeID fallback h s) = [ctxcors.MapLookup h]
  /\ (fst (fst (getConfigByScopeID fallback h s)) = ctxcors.Panic ->
      fallback = true
      /\ IsValid (ctxcors.defaultScopeCache (snd (getScopedConfig h s))) = false
      /\ ctxcors.log (ctxcors.defaultScopeCache (snd (getScopedConfig h s))) = None).
Proof.
  unfold ctxcors.getConfigByScopeID.
  destruct (getScopedConfig h s) as [[sc ok] s1]. cbn [fst snd].
  destruct ok.
  - destruct (IsValid sc); cbn [fst snd]; conjuncts; try reflexivity;
      intros H; discriminate H.
  - destruct fallback.
    + destruct (IsValid (ctxcors.defaultScopeCache s1)) eqn:Ev; cbn [negb].
      * cbn [fst snd]; conjuncts; try reflexivity. intros H; discriminate H.
      * destruct (ctxcors.log (ctxcors.defaultScopeCache s1)) eqn:El;
          cbn [fst snd]; conjuncts; try reflexivity; try assumption.
        -- intros H; discriminate H.
        -- intros _. auto.
    + cbn [fst snd]; conjuncts; try reflexivity. intros H; discriminate H.
Qed.

Lemma getConfigByScopeID_eta (fallback : bool) (h : Hash) (s : Service) :
  getConfigByScopeID fallback h s
  = (fst (fst (getConfigByScopeID fallback h s)),
     snd (getScopedConfig h s), [ctxcors.MapLookup h]).
Proof.
  destruct (getConfigByScopeID_shape fallback h s) as (H1 & H2 & _).
  rewrite <- H1, <- H2.
  destruct (getConfigByScopeID fallback h s) as [[res s1] ev]. reflexivity.
Qed.

(** A hit on an entry that is not valid. *)
Lemma getConfigByScopeID_invalid (fallback : bool) (h : Hash) (s : Service) :
  is_Some (ctxcors.scopeCache s !! h) ->
  IsValid (fst (fst (getScopedConfig h s))) = false ->
  fst (fst (getConfigByScopeID fallback h s))
  = ctxcors.Return (ctxcors.emptyConfig zeroFields)
      (Some (NewNotValidf errScopedConfigNotValid [ArgHash h])).
Proof.
  intros [sc Hhit] Hinv. revert Hinv.
  unfold ctxcors.getConfigByScopeID. rewrite (getScopedConfig_hit h s sc Hhit).
  destruct (ctxcors.log sc); cbn [fst snd]; intros ->; reflexivity.
Qed.

(** X19. An entry of the map that is not valid blocks the fallback: the
    lookup for its hash returns the empty configuration and a NotValid
    error, with or without the fallback flag, and so does
    [configByScopedGetter] without a scope option function, although
    the default entry may be valid. *)
Theorem invalid_entry_blocks_fallback (sg : option ScopedGetter) (s : Service) :
  let h := hashOf sg in
  let notValid :=
    ctxcors.Return (ctxcors.emptyConfig zeroFields)
      (Some (NewNotValidf errScopedConfigNotValid [ArgHash h])) in
  is_Some (ctxcors.scopeCache s !! h) ->
  IsValid (fst (fst (getScopedConfig h s))) = false ->
  h <> DefaultHash ->
  ctxcors.scpOptionFnc s = None ->
  (forall fallback, fst (fst (getConfigByScopeID fallback h s)) = notValid)
  /\ fst (fst (configByScopedGetter sg s)) = notValid
  /\ IsNotValid (Some (NewNotValidf errScopedConfigNotValid [ArgHash h])) = true.
Proof.
  intros h notValid Hhit Hinv Hne Hhook.
  split; [| split; [| reflexivity]].
  - intros fallback. now apply getConfigByScopeID_invalid.
  - unfold ctxcors.configByScopedGetter. fold h.
    destruct (Z.eqb_spec h DefaultHash) as [| _]; [contradiction |].
    rewrite andb_false_r. cbn [andb].
    rewrite (getConfigByScopeID_eta false h s).
    rewrite (getConfigByScopeID_invalid false h s Hhit Hinv).
    destruct (getScopedConfig_keeps h s) as (_ & Hfnc & _).
    rewrite Hfnc, Hhook.
    rewrite (getConfigByScopeID_eta true h (snd (getScopedConfig h s))).
    cbn [fst].
    apply getConfigByScopeID_invalid.
    + rewrite (proj2 (getScopedConfig_stored h s Hhit)). eauto.
    + rewrite getScopedConfig_idem. exact Hinv.
Qed.

(** X20. One call of [configByScopedGetter] looks the map up at most
    twice, always at the hash of the getter, and invokes the scope
    option function at most once and only after a lookup; without a
    scope option function it does nothing but look the map up. *)
Theorem lookup_events (sg : option ScopedGetter) (s : Service) :
  let h := hashOf sg in
  let ev := snd (configByScopedGetter sg s) in
  let look := ctxcors.MapLookup h in
  let call := ctxcors.OptionFncCall sg in
  (ev = [] \/ ev = [look] \/ ev = [look; look]
   \/ ev = [look; call] \/ ev = [look; call; look])
  /\ (ctxcors.scpOptionFnc s = None ->
      ev = [] \/ ev = [look] \/ ev = [look; look]).
Proof.
  intros h ev look call. subst ev.
  unfold ctxcors.configByScopedGetter. fold h.
  destruct (_ && _ && _); [cbn [snd]; auto |].
  rewrite (getConfigByScopeID_eta false h s).
  destruct (getScopedConfig_keeps h s) as (_ & Hfnc & _).
  destruct (fst (fst (getConfigByScopeID false h s))) as [sc [e |] |];
    try (cbn [snd]; auto; fail).
  rewrite Hfnc.
  destruct (ctxcors.scpOptionFnc s) as [fnc |].
  - split; [| intros H; discriminate H].
    destruct (Options (fnc sg) (snd (getScopedConfig h s))) as [[e' |] s2].
    + cbn [snd app]. auto.
    + rewrite (getConfigByScopeID_eta true h s2). cbn [snd app]. auto 6.
  - rewrite (getConfigByScopeID_eta true h (snd (getScopedConfig h s))).
    cbn [snd app]. auto.
Qed.

(** X21. The scope option function populates the cache once: when the
    first lookup for a non-default hash misses and the options of the
    hook store a valid entry for it, the call returns that entry, and
    the next call on the resulting service returns the same entry from
    the map without invoking the hook. *)
Theorem hook_populates_once (sg : option ScopedGetter) (s s1 : Service)
    (fnc : option ScopedGetter -> list Option) :
  let h := hashOf sg in
  let entry := fst (fst (getScopedConfig h s1)) in
  let s2 := snd (getScopedConfig h s1) in
  ctxcors.scpOptionFnc s = Some fnc ->
  sg <> None ->
  h <> DefaultHash ->
  ctxcors.scopeCache s !! h = None ->
  Options (fnc sg) s = (None, s1) ->
  is_Some (ctxcors.scopeCache s1 !! h) ->
  IsValid entry = true ->
  configByScopedGetter sg s
  = (ctxcors.Return entry None, s2,
     [ctxcors.MapLookup h; ctxcors.OptionFncCall sg; ctxcors.MapLookup h])
  /\ configByScopedGetter sg s2
     = (ctxcors.Return entry None, s2, [ctxcors.MapLookup h]).
Proof.
  intros h entry s2 Hfnc Hsg Hne Hmiss Hopts Hhit Hvalid.
  pose proof (getScopedConfig_stored h s1 Hhit) as [_ Hstored].
  pose proof (getScopedConfig_idem h s1) as Hidem.
  fold entry s2 in Hstored, Hidem.
  split.
  - unfold ctxcors.configByScopedGetter. fold h.
    destruct sg as [g |]; [| contradiction]. rewrite Hfnc.
    cbn [ctxcors.isNone orb andb].
    rewrite (getConfigByScopeID_miss Logger Fields zeroFields IsValid
               ScopedGetter Option errConfigNotFound errScopedConfigNotValid
               false h s Hmiss).
    rewrite Hfnc, Hopts.
    rewrite (getConfigByScopeID_hit Logger Fields zeroFields IsValid
               ScopedGetter Option errConfigNotFound errScopedConfigNotValid
               true h s1 Hhit Hvalid).
    reflexivity.
  - unfold ctxcors.configByScopedGetter. fold h.
    destruct (Z.eqb_spec h DefaultHash) as [| _]; [contradiction |].
    rewrite andb_false_r. cbn [andb].
    rewrite (getConfigByScopeID_hit Logger Fields zeroFields IsValid
               ScopedGetter Option errConfigNotFound errScopedConfigNotValid
               false h s2).
    + rewrite Hidem. unfold entry. cbn [fst snd]. reflexivity.
    + rewrite Hstored. eauto.
    + rewrite Hidem. exact Hvalid.
Qed.

(** When [getConfigByScopeID] panics. *)
Lemma getConfigByScopeID_panic_iff (fallback : bool) (h : Hash) (s : Service) :
  fst (fst (getConfigByScopeID fallback h s)) = ctxcors.Panic <->
  fallback = true
  /\ ctxcors.scopeCache s !! h = None
  /\ IsValid (ctxcors.defaultScopeCache s) = false
  /\ ctxcors.log (ctxcors.defaultScopeCache s) = None.
Proof.
  destruct (ctxcors.scopeCache s !! h) as [sc |] eqn:E.
  - unfold ctxcors.getConfigByScopeID.
    rewrite (getScopedConfig_hit h s sc E).
    split; [| intros (_ & H & _); discriminate H].
    destruct (ctxcors.log sc); cbn [fst snd];
      match goal with
      | |- context [IsValid ?c] => destruct (IsValid c)
      end; intros H; discriminate H.
  - rewrite (getConfigByScopeID_miss Logger Fields zeroFields IsValid
               ScopedGetter Option errConfigNotFound errScopedConfigNotValid
               fallback h s E).
    cbn [fst]. destruct fallback.
    + destruct (IsValid (ctxcors.defaultScopeCache s)).
      * split; [intros H; discriminate H | intros (_ & _ & H & _); discriminate H].
      * destruct (ctxcors.log (ctxcors.defaultScopeCache s)).
        -- split; [intros H; discriminate H
                  | intros (_ & _ & _ & H); discriminate H].
        -- split; auto.
    + split; [intros H; discriminate H | intros (H & _); discriminate H].
Qed.

(** X22. On a service without scope option function,
    [configByScopedGetter] panics exactly when the map has no entry for
    the hash of the getter and the default entry is invalid and has no
    logger; in every other case it returns. *)
Theorem panic_iff_unlogged_invalid_default (sg : option ScopedGetter)
    (s : Service) :
  ctxcors.scpOptionFnc s = None ->
  fst (fst (configByScopedGetter sg s)) = ctxcors.Panic <->
  ctxcors.scopeCache s !! hashOf sg = None
  /\ IsValid (ctxcors.defaultScopeCache s) = false
  /\ ctxcors.log (ctxcors.defaultScopeCache s) = None.
Proof.
  intros Hhook. unfold ctxcors.configByScopedGetter.
  set (h := hashOf sg).
  destruct (_ && _ && IsValid (ctxcors.defaultScopeCache s)) eqn:Ec.
  - apply andb_true_iff in Ec as [_ Ev]. cbn [fst].
    split; [intros H; discriminate H | intros (_ & H & _); congruence].
  - clear Ec.
    destruct (ctxcors.scopeCache s !! h) as [sc |] eqn:E.
    + split; [| intros (H & _); discriminate H].
      rewrite (getConfigByScopeID_eta false h s).
      destruct (getScopedConfig_keeps h s) as (_ & Hfnc & _).
      destruct (fst (fst (getConfigByScopeID false h s)))
        as [sc' [e |] |] eqn:E1.
      * rewrite Hfnc, Hhook.
        rewrite (getConfigByScopeID_eta true h (snd (getScopedConfig h s))).
        cbn [fst]. intros H.
        apply getConfigByScopeID_panic_iff in H. destruct H as (_ & H & _).
        rewrite (proj2 (getScopedConfig_stored h s ltac:(rewrite E; eauto))) in H.
        discriminate H.
      * intros H; discriminate H.
      * apply getConfigByScopeID_panic_iff in E1. destruct E1 as [H _].
        discriminate H.
    + rewrite (getConfigByScopeID_miss Logger Fields zeroFields IsValid
                 ScopedGetter Option errConfigNotFound errScopedConfigNotValid
                 false h s E).
      rewrite Hhook.
      rewrite (getConfigByScopeID_miss Logger Fields zeroFields IsValid
                 ScopedGetter Option errConfigNotFound errScopedConfigNotValid
                 true h s E).
      cbn [fst].
      destruct (IsValid (ctxcors.defaultScopeCache s)).
      * split; [intros H; discriminate H | intros (_ & H & _); discriminate H].
      * destruct (ctxcors.log (ctxcors.defaultScopeCache s)).
        -- split; [intros H; discriminate H | intros (_ & _ & H); discriminate H].
        -- split; auto.
Qed.

(** X23. When the map has no entry for the hash of a supplied getter
    and the options of the scope option function fail, the lookup
    returns the empty configuration and that error wrapped, of the same
    behaviour; it does not fall back to the default entry. *)
Theorem hook_error_is_returned (sg : option ScopedGetter) (s s1 : Service)
    (fnc : option ScopedGetter -> list Option) (e : error) :
  let h := hashOf sg in
  ctxcors.scpOptionFnc s = Some fnc ->
  sg <> None ->
  ctxcors.scopeCache s !! h = None ->
  Options (fnc sg) s = (Some e, s1) ->
  configByScopedGetter sg s
  = (ctxcors.Return (ctxcors.emptyConfig zeroFields)
       (Some (Wrap e "[jwtauth] Options by scpOptionFnc")),
     s1, [ctxcors.MapLookup h; ctxcors.OptionFncCall sg])
  /\ Cause (Wrap e "[jwtauth] Options by scpOptionFnc") = Cause e.
Proof.
  intros h Hfnc Hsg Hmiss Hopts. split; [| reflexivity].
  unfold ctxcors.configByScopedGetter. fold h.
  destruct sg as [g |]; [| contradiction]. rewrite Hfnc.
  cbn [ctxcors.isNone orb andb].
  rewrite (getConfigByScopeID_miss Logger Fields zeroFields IsValid
             ScopedGetter Option errConfigNotFound errScopedConfigNotValid
             false h s Hmiss).
  rewrite Hfnc, Hopts. reflexivity.
Qed.

(** X24. [AddError] keeps the first error: on a service without option
    error it stores the error, a later [AddError] leaves the service as
    it is (given a logger on the default entry), and [Options] without
    options then fails with the first error. *)
Theorem AddError_keeps_first (e1 e2 : error) (s : Service) :
  ctxcors.optionError s = None ->
  is_Some (ctxcors.log (ctxcors.defaultScopeCache s)) ->
  exists s1,
    ctxcors.AddError (Some e1) s = Some s1
    /\ ctxcors.optionError s1 = Some e1
    /\ ctxcors.scopeCache s1 = ctxcors.scopeCache s
    /\ ctxcors.defaultScopeCache s1 = ctxcors.defaultScopeCache s
    /\ ctxcors.AddError (Some e2) s1 = Some s1
    /\ Options [] s1 = (Some e1, s1).
Proof.
  intros Hnone [l Hl]. unfold ctxcors.AddError at 1. rewrite Hnone.
  eexists. split; [reflexivity |].
  unfold ctxcors.AddError, ctxcors.Options.
  cbn [ctxcors.optionError ctxcors.scopeCache ctxcors.defaultScopeCache foldl].
  rewrite Hl. auto 6.
Qed.

End CacheExtras.

Section CacheExtraExamples.
Import scope errors corsmock.


Lemma invalid_entry_blocks_fallback_witness :
  (forall fallback,
     fst (fst (ctxcors.getConfigByScopeID false IsValid errConfigNotFound
                 "[ctxcors] ScopedConfig %s invalid" fallback
                 (NewHash Website 2) withBroken))
     = ctxcors.Return (ctxcors.emptyConfig false)
         (Some (NewNotValidf "[ctxcors] ScopedConfig %s invalid"
                  [ArgHash (NewHash Website 2)])))
  /\ fst (fst (configByScopedGetter sgWebsite2 withBroken))
     = ctxcors.Return (ctxcors.emptyConfig false)
         (Some (NewNotValidf "[ctxcors] ScopedConfig %s invalid"
                  [ArgHash (NewHash Website 2)]))
  /\ IsNotValid (Some (NewNotValidf "[ctxcors] ScopedConfig %s invalid"
                         [ArgHash (NewHash Website 2)])) = true.
Proof.
  apply (invalid_entry_blocks_fallback unit bool false IsValid ScopedGetter
           sgScope Option applyOption errConfigNotFound
           "[ctxcors] ScopedConfig %s invalid"
           "[ctxcors] Service does not support this: %s"
           sgWebsite2 withBroken).
  - vm_compute. eauto.
  - reflexivity.
  - discriminate.
  - reflexivity.
Defined.

Lemma hook_populates_once_witness :
  fst (fst (configByScopedGetter sgWebsite2 populating))
  = ctxcors.Return validConfig None
  /\ snd (configByScopedGetter sgWebsite2 populating)
     = [ctxcors.MapLookup (NewHash Website 2);
        ctxcors.OptionFncCall sgWebsite2;
        ctxcors.MapLookup (NewHash Website 2)]
  /\ snd (configByScopedGetter sgWebsite2
            (snd (fst (configByScopedGetter sgWebsite2 populating))))
     = [ctxcors.MapLookup (NewHash Website 2)].
Proof.
  destruct (hook_populates_once unit bool false IsValid ScopedGetter
              sgScope Option applyOption errConfigNotFound
              "[ctxcors] ScopedConfig %s invalid"
              "[ctxcors] Service does not support this: %s"
              sgWebsite2 populating
              (applyOption (WithConfig (NewHash Website 2) bareConfig) populating)
              (fun _ => [WithConfig (NewHash Website 2) bareConfig]))
    as [H1 H2].
  - reflexivity.
  - discriminate.
  - discriminate.
  - reflexivity.
  - vm_compute. reflexivity.
  - vm_compute. eauto.
  - reflexivity.
  - unfold configByScopedGetter. rewrite H1. cbn [fst snd]. rewrite H2.
    repeat split.
Defined.

Lemma panic_iff_unlogged_invalid_default_witness :
  fst (fst (configByScopedGetter sgWebsite2 unconfigured)) = ctxcors.Panic <->
  ctxcors.scopeCache unconfigured !! ctxcors.hashOf sgScope sgWebsite2 = None
  /\ IsValid (ctxcors.defaultScopeCache unconfigured) = false
  /\ ctxcors.log (ctxcors.defaultScopeCache unconfigured) = None.
Proof.
  apply (panic_iff_unlogged_invalid_default unit bool false IsValid ScopedGetter
           sgScope Option applyOption errConfigNotFound
           "[ctxcors] ScopedConfig %s invalid"
           "[ctxcors] Service does not support this: %s"
           sgWebsite2 unconfigured).
  reflexivity.
Defined.

Lemma hook_error_is_returned_witness :
  configByScopedGetter sgDefault failing
  = (ctxcors.Return (ctxcors.emptyConfig false)
       (Some (Wrap errBackend "[jwtauth] Options by scpOptionFnc")),
     applyOption (WithError errBackend) failing,
     [ctxcors.MapLookup DefaultHash; ctxcors.OptionFncCall sgDefault])
  /\ Cause (Wrap errBackend "[jwtauth] Options by scpOptionFnc")
     = Cause errBackend.
Proof.
  apply (hook_error_is_returned unit bool false IsValid ScopedGetter
           sgScope Option applyOption errConfigNotFound
           "[ctxcors] ScopedConfig %s invalid"
           "[ctxcors] Service does not support this: %s"
           sgDefault failing (applyOption (WithError errBackend) failing)
           (fun _ => [WithError errBackend]) errBackend).
  - reflexivity.
  - discriminate.
  - reflexivity.
  - vm_compute. reflexivity.
Defined.

Lemma AddError_keeps_first_witness :
  exists s1 : Service,
    ctxcors.AddError (Some errBackend) plain = Some s1
    /\ ctxcors.optionError s1 = Some errBackend
    /\ ctxcors.scopeCache s1 = ctxcors.scopeCache plain
    /\ ctxcors.defaultScopeCache s1 = ctxcors.defaultScopeCache plain
    /\ ctxcors.AddError (Some errConfigNotFound) s1 = Some s1
    /\ ctxcors.Options applyOption "[ctxcors] Service does not support this: %s"
         [] s1 = (Some errBackend, s1).
Proof.
  apply (AddError_keeps_first unit bool ScopedGetter Option applyOption
           "[ctxcors] Service does not support this: %s"
           errBackend errConfigNotFound plain).
  - reflexivity.
  - vm_compute. eauto.
Defined.

End CacheExtraExamples.
